(** * sum_tables.js: numeric tokens in table cells

    A shallow embedding of [scripts/sum_tables.js]: the token regular
    expression applied to every cell text, [parseNumberFromString], and the
    loop that adds the parsed values into the page subtotal.

    JavaScript strings are sequences of UTF-16 code units, and JavaScript
    numbers are IEEE 754 binary64 values; both are modelled as such. *)

From Stdlib Require Import Strings.String Strings.Ascii.
From Stdlib Require Import List Bool Arith NArith ZArith Lia.
From Stdlib Require Numbers.DecimalN Numbers.DecimalPos Numbers.DecimalFacts.
From Stdlib Require Import Floats.SpecFloat.
Import ListNotations.

(** ** Strings *)

(** A code unit of a JavaScript string. *)
Definition codeUnit := N.

(** A JavaScript string value. *)
Definition jsstring := list codeUnit.

(** A string literal of the source, as code units (the literals of the
    script are ASCII). *)
Definition lit (s : string) : jsstring :=
  map N_of_ascii (list_ascii_of_string s).

Module Char.

Local Open Scope N_scope.

(** [\d] (without the [u] flag): the ten ASCII digits. *)
Definition isDigit (c : codeUnit) : bool := (48 <=? c) && (c <=? 57).

(** LineTerminator of ECMAScript: LF, CR, LS, PS. *)
Definition isLineTerminator (c : codeUnit) : bool :=
  (c =? 10) || (c =? 13) || (c =? 0x2028) || (c =? 0x2029).

(** [\s], which is also what [trim] removes: WhiteSpace and
    LineTerminator of ECMAScript. *)
Definition isWhiteSpace (c : codeUnit) : bool :=
  (c =? 9) || (c =? 11) || (c =? 12) || (c =? 32) || (c =? 0xA0)
  || (c =? 0x1680) || ((0x2000 <=? c) && (c <=? 0x200A))
  || (c =? 0x202F) || (c =? 0x205F) || (c =? 0x3000) || (c =? 0xFEFF)
  || isLineTerminator c.

Definition isDot (c : codeUnit) : bool := c =? 46.
Definition isComma (c : codeUnit) : bool := c =? 44.
Definition isMinus (c : codeUnit) : bool := c =? 45.
Definition isPlus (c : codeUnit) : bool := c =? 43.
Definition isLParen (c : codeUnit) : bool := c =? 40.
Definition isRParen (c : codeUnit) : bool := c =? 41.

(** [[()]] *)
Definition isParen (c : codeUnit) : bool := isLParen c || isRParen c.

(** [[\-()]] *)
Definition isSignOrParen (c : codeUnit) : bool := isMinus c || isParen c.

(** [[0-9\.,\(\)\s]] *)
Definition isTokenBody (c : codeUnit) : bool :=
  isDigit c || isDot c || isComma c || isParen c || isWhiteSpace c.

(** [[\d\.\-,\(\)\s]], the complement of the class that
    [parseNumberFromString] deletes. *)
Definition isNumberChar (c : codeUnit) : bool :=
  isDigit c || isDot c || isMinus c || isComma c || isParen c
  || isWhiteSpace c.

(** [.] (without the [s] flag): anything but a line terminator. *)
Definition isAny (c : codeUnit) : bool := negb (isLineTerminator c).

End Char.

Module Str.

(** [String.prototype.trimStart] *)
Fixpoint trimStart (s : jsstring) : jsstring :=
  match s with
  | [] => []
  | c :: r => if Char.isWhiteSpace c then trimStart r else s
  end.

(** [String.prototype.trimEnd] *)
Definition trimEnd (s : jsstring) : jsstring := rev (trimStart (rev s)).

(** [String.prototype.trim] *)
Definition trim (s : jsstring) : jsstring := trimEnd (trimStart s).

(** [str.replace(/[cls]/g, '')]: every code unit of the class is deleted. *)
Definition deleteAll (cls : codeUnit -> bool) (s : jsstring) : jsstring :=
  filter (fun c => negb (cls c)) s.

(** [(str.match(/[cls]/g) || []).length] *)
Definition countAll (cls : codeUnit -> bool) (s : jsstring) : nat :=
  length (filter cls s).

(** [str.replace(/,/g, '.')] *)
Definition commasToDots (s : jsstring) : jsstring :=
  map (fun c => if Char.isComma c then 46%N else c) s.

(** [str.lastIndexOf(c)]: the greatest index holding [c], or -1. *)
Fixpoint lastIndexOf (cls : codeUnit -> bool) (s : jsstring) : Z :=
  match s with
  | [] => (-1)%Z
  | c :: r =>
      let i := lastIndexOf cls r in
      if (0 <=? i)%Z then (i + 1)%Z
      else if cls c then 0%Z else (-1)%Z
  end.

(** An index argument of [slice], relative to the end when negative and
    clamped to the string. *)
Definition clampIndex (len i : Z) : Z :=
  if (i <? 0)%Z then Z.max (len + i) 0 else Z.min i len.

(** [str.slice(from, to)] *)
Definition slice (s : jsstring) (from to : Z) : jsstring :=
  let len := Z.of_nat (length s) in
  let a := clampIndex len from in
  let b := clampIndex len to in
  firstn (Z.to_nat (b - a)) (skipn (Z.to_nat a) s).

(** [str.slice(from)] *)
Definition sliceFrom (s : jsstring) (from : Z) : jsstring :=
  slice s from (Z.of_nat (length s)).

End Str.

(** ** Regular expressions

    The regular expressions of the script are sequences of character
    classes, each taken once or under a greedy star, with an optional
    [$] at the end.  [matchHere] is the backtracking matcher of ECMAScript on
    that fragment. *)

Module RegExp.

Inductive atom : Type :=
| One (cls : codeUnit -> bool)
| Many (cls : codeUnit -> bool)
| AtEnd.

Definition pattern := list atom.

(** A greedy star over a character class, followed by the rest of the
    pattern [k]: one more code unit of the class is taken first, and given
    back when what follows fails. *)
Fixpoint star (cls : codeUnit -> bool) (k : jsstring -> option nat)
    (s : jsstring) : option nat :=
  match s with
  | c :: s' =>
      if cls c then
        match star cls k s' with
        | Some n => Some (S n)
        | None => k s
        end
      else k s
  | [] => k []
  end.

(** The number of code units the pattern takes at the start of [s], on
    the first successful path of the backtracking search. *)
Fixpoint matchHere (r : pattern) (s : jsstring) {struct r} : option nat :=
  match r with
  | [] => Some 0
  | One cls :: r' =>
      match s with
      | c :: s' => if cls c then option_map S (matchHere r' s') else None
      | [] => None
      end
  | Many cls :: r' => star cls (matchHere r') s
  | AtEnd :: r' =>
      match s with
      | [] => matchHere r' []
      | _ :: _ => None
      end
  end.

(** The matches of a global ([g]) pattern from the current position on.
    [skip] counts the code units of [s] that the previous match still
    covers ([lastIndex] lies that far ahead); a match is tried at every
    position from [lastIndex] on, and after a match the search resumes at
    its end (one code unit further when the match is empty). *)
Fixpoint scan (r : pattern) (s : jsstring) (skip : nat) : list jsstring :=
  match s with
  | [] =>
      match skip, matchHere r [] with
      | 0, Some _ => [[]]
      | _, _ => []
      end
  | _ :: s' =>
      match skip with
      | S k => scan r s' k
      | 0 =>
          match matchHere r s with
          | Some n => firstn n s :: scan r s' (n - 1)
          | None => scan r s' 0
          end
      end
  end.

(** [str.match(re)] for a global [re]: the array of all matches, or
    [null] when there is none. *)
Definition matchAll (r : pattern) (s : jsstring) : option (list jsstring) :=
  match scan r s 0 with
  | [] => None
  | ms => Some ms
  end.

(** [re.test(str)] for a pattern that starts with [^]: only position 0
    is tried. *)
Definition testAnchored (r : pattern) (s : jsstring) : bool :=
  match matchHere r s with
  | Some _ => true
  | None => false
  end.

End RegExp.

Import RegExp.

(** [/[\-()]*\s*[0-9][0-9\.,\(\)\s]*[0-9]/g] *)
Definition tokenRe : pattern :=
  [Many Char.isSignOrParen; Many Char.isWhiteSpace; One Char.isDigit;
   Many Char.isTokenBody; One Char.isDigit].

(** [/^\s*\(.*\)\s*$/], without its leading [^] (see
    [RegExp.testAnchored]). *)
Definition parenRe : pattern :=
  [Many Char.isWhiteSpace; One Char.isLParen; Many Char.isAny;
   One Char.isRParen; Many Char.isWhiteSpace; AtEnd].

(** ** Numbers

    A JavaScript number is a binary64 value: [spec_float] with 53 bits of
    precision and exponents up to 1024, with the operations of IEEE 754 that
    the Standard Library defines on it. *)

Definition number := spec_float.

Module Num.

Definition prec : Z := 53.
Definition emax : Z := 1024.

(** The literal [0]. *)
Definition zero : number := S754_zero false.

Definition NaN : number := S754_nan.

(** [Number.isNaN(x)] *)
Definition isNaN (x : number) : bool :=
  match x with
  | S754_nan => true
  | _ => false
  end.

(** [x + y] *)
Definition add (x y : number) : number := SFadd prec emax x y.

(** [-Math.abs(x)] *)
Definition negAbs (x : number) : number := SFopp (SFabs x).

(** The sign bit: set on negative numbers, on -0 and on -Infinity. *)
Definition signBit (x : number) : bool :=
  match x with
  | S754_zero s | S754_infinity s | S754_finite s _ _ => s
  | S754_nan => false
  end.

(** The number value of the decimal [m / 10^k], with the sign [neg]:
    the binary64 value nearest to it, ties to even (the quotient of the two
    integers, rounded once). *)
Definition ofDecimal (neg : bool) (m : N) (k : nat) : number :=
  match m with
  | N0 => S754_zero neg
  | Npos p =>
      SFdiv prec emax (S754_finite neg p 0)
        (S754_finite false (Z.to_pos (10 ^ Z.of_nat k)) 0)
  end.

(** The number value of an integer. *)
Definition ofZ (z : Z) : number := ofDecimal (z <? 0)%Z (Z.abs_N z) 0.

(** The integer that a number is, when it is one: a finite number
    [m * 2^e] with [e >= 0], or with [2^(-e)] dividing [m]. *)
Definition integerValue (x : number) : option Z :=
  match x with
  | S754_zero _ => Some 0%Z
  | S754_finite s m e =>
      if (0 <=? e)%Z then Some (cond_Zopp s (Zpos m * 2 ^ e))
      else if (Zpos m mod 2 ^ (- e) =? 0)%Z
           then Some (cond_Zopp s (Zpos m / 2 ^ (- e)))
           else None
  | S754_infinity _ | S754_nan => None
  end.

(** The digits at the start of [s], and what follows them. *)
Fixpoint takeDigits (s : jsstring) : jsstring * jsstring :=
  match s with
  | [] => ([], [])
  | c :: r =>
      if Char.isDigit c then
        let (ds, rest) := takeDigits r in (c :: ds, rest)
      else ([], s)
  end.

(** The value of a sequence of decimal digits. *)
Definition digitsValue (ds : jsstring) : N :=
  fold_left (fun acc c => 10 * acc + (c - 48))%N ds 0%N.

(** StrUnsignedDecimalLiteral without exponent part: [digits],
    [digits.], [digits.digits] or [.digits], as the integer made of all
    its digits and the number of digits after the dot. *)
Definition unsignedDecimal (s : jsstring) : option (N * nat) :=
  let (ip, r) := takeDigits s in
  match r with
  | [] =>
      match ip with
      | [] => None
      | _ :: _ => Some (digitsValue ip, 0)
      end
  | c :: r' =>
      if Char.isDot c then
        let (fp, r'') := takeDigits r' in
        match r'', ip ++ fp with
        | [], _ :: _ => Some (digitsValue (ip ++ fp), length fp)
        | _, _ => None
        end
      else None
  end.

End Num.

(** [Number(str)] for a string argument (StringToNumber of ECMAScript):
    white space around the literal is ignored, the empty literal is [+0],
    and a literal that is not a StringNumericLiteral is [NaN].

    Only the literals written with digits, a dot and a sign are recognised
    here: an exponent part, [Infinity] and the [0x], [0o] and [0b] forms all
    need a letter, and [parseNumberFromString] deletes every letter before it
    calls [Number] (lemma [Number_argument_alphabet] below). *)
Definition Number (s : jsstring) : number :=
  match Str.trim s with
  | [] => Num.zero
  | c :: r =>
      let literal (neg : bool) (u : jsstring) :=
        match Num.unsignedDecimal u with
        | Some (m, k) => Num.ofDecimal neg m k
        | None => Num.NaN
        end in
      if Char.isMinus c then literal true r
      else if Char.isPlus c then literal false r
      else literal false (c :: r)
  end.

(** ** The script *)

(** The values [parseNumberFromString] tells apart in its argument. *)
Inductive jsvalue : Type :=
| JNull
| JUndefined
| JString (s : jsstring).

(** [parseNumberFromString(s)]; [None] is its [null]. *)
Definition parseNumberFromString (s : jsvalue) : option number :=
  match s with
  | JNull | JUndefined => None
  | JString s =>
      let str := Str.trim s in
      match str with
      | [] => None
      | _ :: _ =>
          let str := Str.deleteAll (fun c => negb (Char.isNumberChar c)) str in
          let isParenNeg := testAnchored parenRe str in
          let str := Str.deleteAll Char.isParen str in
          let str := Str.deleteAll Char.isWhiteSpace str in
          let dotCount := Str.countAll Char.isDot str in
          let str :=
            if dotCount <=? 1 then Str.deleteAll Char.isComma str
            else
              let str := Str.deleteAll Char.isComma str in
              let lastDotIndex := Str.lastIndexOf Char.isDot str in
              Str.deleteAll Char.isDot (Str.slice str 0 lastDotIndex)
                ++ Str.sliceFrom str lastDotIndex in
          let value := Number str in
          let parsed :=
            if Num.isNaN value then
              let alt := Str.commasToDots str in
              let value := Number alt in
              if Num.isNaN value then None else Some value
            else Some value in
          match parsed with
          | None => None
          | Some value =>
              Some (if isParenNeg then Num.negAbs value else value)
          end
      end
  end.

(** The tokens of one cell, each parsed and added when it is a number:
    the body of [for (const s of rawCellTexts)]. *)
Definition addTokens (total : number) (tokens : list jsstring) : number :=
  fold_left
    (fun total t =>
       match parseNumberFromString (JString t) with
       | Some v => Num.add total v
       | None => total
       end)
    tokens total.

Definition addCell (total : number) (s : jsstring) : number :=
  match matchAll tokenRe s with
  | None => total
  | Some tokens => addTokens total tokens
  end.

(** The page subtotal of a sequence of cell texts ([pageNumbersTotal] after
    the loop over the cells). *)
Definition accumulate (cellTexts : list jsstring) : number :=
  fold_left addCell cellTexts Num.zero.

(** The subtotal of a page: its table cells, or the role-based cells when
    there is no table cell. *)
Definition pageSubtotal (rawCellTexts alt : list jsstring) : number :=
  match rawCellTexts with
  | [] => accumulate alt
  | _ :: _ => accumulate rawCellTexts
  end.

(** ** Definitions used to state the properties *)

(** [parseNumberFromString] with the comma-as-decimal retry deleted: a
    first parse that is [NaN] gives [null] at once. *)
Definition parseNumberFromString_noRetry (s : jsvalue) : option number :=
  match s with
  | JNull | JUndefined => None
  | JString s =>
      let str := Str.trim s in
      match str with
      | [] => None
      | _ :: _ =>
          let str := Str.deleteAll (fun c => negb (Char.isNumberChar c)) str in
          let isParenNeg := testAnchored parenRe str in
          let str := Str.deleteAll Char.isParen str in
          let str := Str.deleteAll Char.isWhiteSpace str in
          let dotCount := Str.countAll Char.isDot str in
          let str :=
            if dotCount <=? 1 then Str.deleteAll Char.isComma str
            else
              let str := Str.deleteAll Char.isComma str in
              let lastDotIndex := Str.lastIndexOf Char.isDot str in
              Str.deleteAll Char.isDot (Str.slice str 0 lastDotIndex)
                ++ Str.sliceFrom str lastDotIndex in
          let value := Number str in
          if Num.isNaN value then None
          else Some (if isParenNeg then Num.negAbs value else value)
      end
  end.

(** The string after the strip of [parseNumberFromString], on which the
    parenthesis test is made. *)
Definition stripped (s : jsstring) : jsstring :=
  Str.deleteAll (fun c => negb (Char.isNumberChar c)) (Str.trim s).

(** The working string of [parseNumberFromString] when the dots are
    counted: trimmed, stripped, parentheses and white space deleted. *)
Definition working (s : jsstring) : jsstring :=
  let str := Str.trim s in
  let str := Str.deleteAll (fun c => negb (Char.isNumberChar c)) str in
  let str := Str.deleteAll Char.isParen str in
  Str.deleteAll Char.isWhiteSpace str.

(** The decimal/thousands step of [parseNumberFromString], on the working
    string: what [Number] is then called on. *)
Definition separators (str : jsstring) : jsstring :=
  let dotCount := Str.countAll Char.isDot str in
  if dotCount <=? 1 then Str.deleteAll Char.isComma str
  else
    let str := Str.deleteAll Char.isComma str in
    let lastDotIndex := Str.lastIndexOf Char.isDot str in
    Str.deleteAll Char.isDot (Str.slice str 0 lastDotIndex)
      ++ Str.sliceFrom str lastDotIndex.

(** The specification's reading of the several-dots case: only the last dot
    is the decimal point, every dot with another dot after it is removed. *)
Fixpoint dropInnerDots (s : jsstring) : jsstring :=
  match s with
  | [] => []
  | c :: r =>
      if Char.isDot c && existsb Char.isDot r then dropInnerDots r
      else c :: dropInnerDots r
  end.



(** [Number.MAX_SAFE_INTEGER] *)
Definition MAX_SAFE_INTEGER : Z := 2 ^ 53 - 1.

(** What a pattern accepts, without the order of the search: [accepts r p]
    when the code units [p] can be split among the atoms of [r], followed
    by the text [rest]. *)
Inductive accepts : pattern -> jsstring -> jsstring -> Prop :=
| acc_nil rest : accepts [] [] rest
| acc_one cls r c p rest :
    cls c = true -> accepts r p rest ->
    accepts (One cls :: r) (c :: p) rest
| acc_many cls r q p rest :
    Forall (fun c => cls c = true) q -> accepts r p rest ->
    accepts (Many cls :: r) (q ++ p) rest
| acc_end r :
    accepts r [] [] -> accepts (AtEnd :: r) [] [].

(** The values that the tokens of the cells parse to, in order, the [null]
    results left out. *)
Definition parsedValues (cellTexts : list jsstring) : list number :=
  flat_map
    (fun s =>
       match matchAll tokenRe s with
       | None => []
       | Some tokens =>
           flat_map
             (fun t =>
                match parseNumberFromString (JString t) with
                | Some v => [v]
                | None => []
                end)
             tokens
       end)
    cellTexts.

(** The code units that reach [Number]: digits, dots and minus signs. *)
Definition isPayload (c : codeUnit) : bool :=
  Char.isDigit c || Char.isDot c || Char.isMinus c.

(** The code units of the working string: the payload and the commas. *)
Definition isKept (c : codeUnit) : bool := isPayload c || Char.isComma c.

(** Tokens laid out in a text: before each token, the gap that separates
    it from the token before. *)
Fixpoint weave (gaps tokens : list jsstring) : jsstring :=
  match gaps, tokens with
  | g :: gaps', t :: tokens' => g ++ t ++ weave gaps' tokens'
  | _, _ => []
  end.

(** What the browser gives for one URL of the run: an error thrown inside
    the [try] block (navigation, time out, evaluation), or the texts of the
    table cells and of the role-based cells. *)
Inductive pageOutcome : Type :=
| PageFailed
| PageLoaded (rawCellTexts alt : list jsstring).

(** One turn of [for (const url of urls)]: the page subtotal is added to
    [grandTotal], and the [catch] block leaves it as it is. *)
Definition visit (grandTotal : number) (page : pageOutcome) : number :=
  match page with
  | PageFailed => grandTotal
  | PageLoaded rawCellTexts alt =>
      Num.add grandTotal (pageSubtotal rawCellTexts alt)
  end.

(** [grandTotal] after the loop over the URLs. *)
Definition grandTotal (pages : list pageOutcome) : number :=
  fold_left visit pages Num.zero.

Definition isLoaded (page : pageOutcome) : bool :=
  match page with
  | PageFailed => false
  | PageLoaded _ _ => true
  end.

(** The first code unit is a minus sign. *)
Definition startsWithMinus (s : jsstring) : bool :=
  match s with
  | c :: _ => Char.isMinus c
  | [] => false
  end.

(** What follows the last dot of a string ([[]] when it has no dot). *)
Fixpoint afterLastDot (s : jsstring) : jsstring :=
  match s with
  | [] => []
  | c :: r =>
      if existsb Char.isDot r then afterLastDot r
      else if Char.isDot c then r else []
  end.

(** The decimal that a token writes: the integer made of all its digits,
    and the number of its digits after its last dot. *)
Definition tokenDigits (t : jsstring) : N :=
  Num.digitsValue (filter Char.isDigit t).

Definition tokenScale (t : jsstring) : nat :=
  Str.countAll Char.isDigit (afterLastDot t).

(** All the tokens of a page, cell after cell. *)
Definition allTokens (cellTexts : list jsstring) : list jsstring :=
  flat_map
    (fun s =>
       match matchAll tokenRe s with
       | None => []
       | Some tokens => tokens
       end)
    cellTexts.

(** The integer that a token without a dot writes: its digits, negated
    when the token holds one minus sign. *)
Definition tokenInteger (t : jsstring) : Z :=
  if Nat.eqb (Str.countAll Char.isMinus t) 1
  then (- Z.of_N (tokenDigits t))%Z
  else Z.of_N (tokenDigits t).

Definition isSafeInteger (z : Z) : bool :=
  ((- MAX_SAFE_INTEGER <=? z) && (z <=? MAX_SAFE_INTEGER))%Z.

(** The integers [zs] and the sums reached when they are added one after
    the other to [acc] are all safe integers. *)
Fixpoint sumsSafe (acc : Z) (zs : list Z) : bool :=
  match zs with
  | [] => true
  | z :: zs' =>
      isSafeInteger z && isSafeInteger (acc + z) && sumsSafe (acc + z) zs'
  end.

(** The sum of a list of integers. *)
Definition sumZ (zs : list Z) : Z := fold_left Z.add zs 0%Z.

(** The cell texts that count for a page: the table cells, or the
    role-based cells when there is no table cell. *)
Definition pageCells (rawCellTexts alt : list jsstring) : list jsstring :=
  match rawCellTexts with
  | [] => alt
  | _ :: _ => rawCellTexts
  end.

(** A 53-bit mantissa for a positive integer of at most 53 bits. *)
Definition canon (n : positive) : positive :=
  Pos.shiftl n (53 - Npos (digits2_pos n)).

(** The integer that a page adds to the grand total when its tokens are
    integers: nothing for a page that failed. *)
Definition pageInteger (page : pageOutcome) : Z :=
  match page with
  | PageFailed => 0%Z
  | PageLoaded rawCellTexts alt =>
      sumZ (map tokenInteger (allTokens (pageCells rawCellTexts alt)))
  end.

(** The tokens that count for a page. *)
Definition pageTokens (page : pageOutcome) : list jsstring :=
  match page with
  | PageFailed => []
  | PageLoaded rawCellTexts alt => allTokens (pageCells rawCellTexts alt)
  end.

(** ** Character classes *)

Ltac char_unfold :=
  unfold Char.isNumberChar, Char.isTokenBody, Char.isSignOrParen,
    Char.isParen, Char.isAny, Char.isWhiteSpace, Char.isLineTerminator,
    Char.isDigit, Char.isDot, Char.isComma, Char.isMinus, Char.isPlus,
    Char.isLParen, Char.isRParen in *.

Ltac char_props :=
  repeat match goal with
    | H : _ = false |- _ => apply not_true_iff_false in H
    | |- _ = false => apply not_true_iff_false; intro
    end;
  repeat rewrite ?negb_true_iff, ?orb_true_iff, ?andb_true_iff,
    ?N.eqb_eq, ?N.leb_le in *.

Ltac char_solve := intros; char_unfold; char_props; lia.

Lemma digit_not_white c : Char.isDigit c = true -> Char.isWhiteSpace c = false.
Proof. char_solve. Qed.

Lemma digit_number_char c : Char.isDigit c = true -> Char.isNumberChar c = true.
Proof. char_solve. Qed.

Lemma digit_not_paren c : Char.isDigit c = true -> Char.isParen c = false.
Proof. char_solve. Qed.

Lemma digit_not_comma c : Char.isDigit c = true -> Char.isComma c = false.
Proof. char_solve. Qed.

Lemma digit_not_dot c : Char.isDigit c = true -> Char.isDot c = false.
Proof. char_solve. Qed.

Lemma digit_not_minus c : Char.isDigit c = true -> Char.isMinus c = false.
Proof. char_solve. Qed.

Lemma digit_not_plus c : Char.isDigit c = true -> Char.isPlus c = false.
Proof. char_solve. Qed.

Lemma dot_not_white c : Char.isDot c = true -> Char.isWhiteSpace c = false.
Proof. char_solve. Qed.

Lemma dot_number_char c : Char.isDot c = true -> Char.isNumberChar c = true.
Proof. char_solve. Qed.

Lemma dot_not_paren c : Char.isDot c = true -> Char.isParen c = false.
Proof. char_solve. Qed.

Lemma dot_not_comma c : Char.isDot c = true -> Char.isComma c = false.
Proof. char_solve. Qed.

Lemma dot_not_digit c : Char.isDot c = true -> Char.isDigit c = false.
Proof. char_solve. Qed.

(** ** List and string lemmas *)

Section Lists.

Context {A : Type}.
Implicit Types (f g : A -> bool) (l : list A).

Lemma filter_all f l :
  (forall x, In x l -> f x = true) -> filter f l = l.
Proof.
  induction l as [|a l IH]; simpl; intros H; [reflexivity|].
  rewrite (H a) by (left; reflexivity).
  f_equal. apply IH. intros x Hx. apply H. right. exact Hx.
Qed.

Lemma filter_none f l :
  (forall x, In x l -> f x = false) -> filter f l = [].
Proof.
  induction l as [|a l IH]; simpl; intros H; [reflexivity|].
  rewrite (H a) by (left; reflexivity).
  apply IH. intros x Hx. apply H. right. exact Hx.
Qed.

Lemma filter_filter_keep f g l :
  (forall x, f x = true -> g x = true) ->
  filter f (filter g l) = filter f l.
Proof.
  intros H. induction l as [|a l IH]; simpl; [reflexivity|].
  destruct (g a) eqn:Hg; simpl.
  - rewrite IH. reflexivity.
  - destruct (f a) eqn:Hf; [|exact IH].
    apply H in Hf. congruence.
Qed.

Lemma In_firstn n l x : In x (firstn n l) -> In x l.
Proof.
  revert l. induction n as [|n IH]; intros [|a l]; simpl; try tauto.
  intros [H|H]; [left; exact H | right; apply IH; exact H].
Qed.

Lemma In_skipn n l x : In x (skipn n l) -> In x l.
Proof.
  revert l. induction n as [|n IH]; intros [|a l]; simpl; try tauto.
  intros H. right. apply IH. exact H.
Qed.

Lemma skipn_app_2 l1 l2 n :
  skipn (length l1 + n) (l1 ++ l2) = skipn n l2.
Proof. induction l1 as [|a l1 IH]; simpl; [reflexivity | exact IH]. Qed.

End Lists.

Lemma In_deleteAll cls s c :
  In c (Str.deleteAll cls s) <-> In c s /\ cls c = false.
Proof.
  unfold Str.deleteAll. rewrite filter_In, negb_true_iff. reflexivity.
Qed.

Lemma In_slice s a b c : In c (Str.slice s a b) -> In c s.
Proof.
  unfold Str.slice. intros H.
  apply In_firstn in H. apply In_skipn in H. exact H.
Qed.

Lemma In_sliceFrom s a c : In c (Str.sliceFrom s a) -> In c s.
Proof. apply In_slice. Qed.

(** ** The matcher *)

Section Matcher.

(** A pattern with an atom [One cls] matches nowhere in a text without a
    code unit of [cls]. *)
Lemma matchHere_needs cls r :
  In (One cls) r ->
  forall s, (forall c, In c s -> cls c = false) -> matchHere r s = None.
Proof.
  induction r as [|a r IH]; intros Hin; [destruct Hin|].
  destruct Hin as [->|Hin].
  - intros [|c s] Hs; simpl; [reflexivity|].
    rewrite (Hs c) by (left; reflexivity). reflexivity.
  - specialize (IH Hin). destruct a as [cls'|cls'|]; simpl.
    + intros [|c s] Hs; [reflexivity|].
      destruct (cls' c); [|reflexivity].
      rewrite IH; [reflexivity|].
      intros x Hx. apply Hs. right. exact Hx.
    + intros s. induction s as [|c s IHs]; intros Hs; simpl.
      * apply IH. exact Hs.
      * rewrite IHs by (intros x Hx; apply Hs; right; exact Hx).
        rewrite (IH (c :: s) Hs). destruct (cls' c); reflexivity.
    + intros [|c s] Hs; [|reflexivity]. apply IH. exact Hs.
Qed.

Lemma scan_needs cls r :
  In (One cls) r ->
  forall s, (forall c, In c s -> cls c = false) -> scan r s 0 = [].
Proof.
  intros Hin s. induction s as [|c s IH]; intros Hs; simpl.
  - rewrite (matchHere_needs _ _ Hin) by exact Hs. reflexivity.
  - rewrite (matchHere_needs _ _ Hin) by exact Hs.
    apply IH. intros x Hx. apply Hs. right. exact Hx.
Qed.

Lemma matchAll_needs cls r s :
  In (One cls) r ->
  (forall c, In c s -> cls c = false) -> matchAll r s = None.
Proof.
  intros Hin Hs. unfold matchAll. rewrite (scan_needs _ _ Hin) by exact Hs.
  reflexivity.
Qed.

(** The search finds a match whenever the continuation has one. *)
Lemma star_continues cls k s n :
  k s = Some n -> exists m, star cls k s = Some m.
Proof.
  intros Hk. destruct s as [|c s]; simpl; [eauto|].
  destruct (cls c); [|eauto].
  destruct (star cls k s); eauto.
Qed.

Lemma star_complete cls k q s n :
  Forall (fun c => cls c = true) q ->
  k s = Some n -> exists m, star cls k (q ++ s) = Some m.
Proof.
  intros Hq Hk. induction Hq as [|c q Hc Hq IH]; simpl.
  - eapply star_continues. exact Hk.
  - rewrite Hc. destruct IH as [m ->]. eauto.
Qed.

(** Completeness of the search: a text that the pattern accepts is
    matched (possibly along another split). *)
Lemma matchHere_complete r p rest :
  accepts r p rest -> exists n, matchHere r (p ++ rest) = Some n.
Proof.
  induction 1 as [rest|cls r c p rest Hc _ [n IH]
                 |cls r q p rest Hq _ [n IH]|r _ [n IH]]; simpl.
  - eauto.
  - rewrite Hc, IH. simpl. eauto.
  - rewrite <- app_assoc. eapply star_complete; eassumption.
  - simpl in IH. eauto.
Qed.

Lemma star_sound cls k s n :
  star cls k s = Some n ->
  exists q m, n = length q + m /\ Forall (fun c => cls c = true) q
              /\ firstn (length q) s = q /\ k (skipn (length q) s) = Some m.
Proof.
  revert n. induction s as [|c s IH]; simpl; intros n H.
  - exists [], n. auto.
  - destruct (cls c) eqn:Hc; [|exists [], n; auto].
    destruct (star cls k s) as [n'|] eqn:Hs; [|exists [], n; auto].
    injection H as <-.
    destruct (IH n' eq_refl) as (q & m & -> & Hq & Hf & Hk).
    exists (c :: q), m. simpl. rewrite Hf. auto.
Qed.

(** Soundness of the search: what it matches, the pattern accepts. *)
Lemma matchHere_sound r :
  forall s n, matchHere r s = Some n ->
              n <= length s /\ accepts r (firstn n s) (skipn n s).
Proof.
  induction r as [|a r IH]; simpl; intros s n H.
  - injection H as <-. split; [lia|]. simpl. constructor.
  - destruct a as [cls|cls|].
    + destruct s as [|c s]; [discriminate|].
      destruct (cls c) eqn:Hc; [|discriminate].
      destruct (matchHere r s) as [m|] eqn:Hm; [|discriminate].
      injection H as <-. destruct (IH s m Hm) as [Hle Hacc].
      simpl. split; [lia|]. constructor; assumption.
    + apply star_sound in H. destruct H as (q & m & -> & Hq & Hf & Hk).
      destruct (IH _ _ Hk) as [Hle Hacc].
      assert (Hs : s = q ++ skipn (length q) s).
      { rewrite <- Hf at 1. symmetry. apply firstn_skipn. }
      revert Hle Hacc Hs. clear Hf Hk. generalize (skipn (length q) s).
      intros t Hle Hacc ->. rewrite length_app. split; [lia|].
      rewrite firstn_app_2, skipn_app_2. constructor; assumption.
    + destruct s as [|c s]; [|discriminate].
      destruct (IH _ _ H) as [Hle Hacc]. simpl in Hle.
      assert (n = 0) as -> by lia. simpl in *.
      split; [lia|]. constructor. exact Hacc.
Qed.

End Matcher.

(** Every match of a global search is a match of the pattern at some
    position of the text. *)
Lemma scan_In r t : forall s k,
  In t (scan r s k) ->
  exists s' n, matchHere r s' = Some n /\ t = firstn n s'.
Proof.
  induction s as [|c s IH]; simpl; intros k H.
  - destruct k; [|destruct H].
    destruct (matchHere r []) as [n|] eqn:Hm; [|destruct H].
    destruct H as [<-|[]]. exists [], n. split; [exact Hm|].
    destruct n; reflexivity.
  - destruct k as [|k]; [|eapply IH; exact H].
    destruct (matchHere r (c :: s)) as [n|] eqn:Hm; [|eapply IH; exact H].
    destruct H as [<-|H]; [|eapply IH; exact H].
    exists (c :: s), n. split; [exact Hm | reflexivity].
Qed.

(** ** Token extraction *)

(** C6: a cell text without any digit has no token: [match] returns its
    [null], the cell is skipped and adds nothing to the page subtotal. *)
Theorem no_digit_no_token (s : jsstring) :
  (forall c, In c s -> Char.isDigit c = false) ->
  matchAll tokenRe s = None
  /\ (forall total, addCell total s = total)
  /\ parsedValues [s] = [].
Proof.
  intros Hs.
  assert (Hm : matchAll tokenRe s = None).
  { apply matchAll_needs with (cls := Char.isDigit); [|exact Hs].
    simpl. auto. }
  split; [exact Hm|]. split.
  - intros total. unfold addCell. rewrite Hm. reflexivity.
  - unfold parsedValues. simpl. rewrite Hm. reflexivity.
Qed.

Lemma no_digit_no_token_witness :
  matchAll tokenRe (lit "n/a (--) .,") = None
  /\ (forall total, addCell total (lit "n/a (--) .,") = total)
  /\ parsedValues [lit "n/a (--) .,"] = [].
Proof.
  apply (no_digit_no_token (lit "n/a (--) .,")).
  intros c Hc. simpl in Hc.
  repeat (destruct Hc as [<-|Hc]; [reflexivity|]). destruct Hc.
Defined.

(** C2: the token pattern asks for a digit, then for another digit, so a
    digit standing alone is not a token: the cell text ["5"] has no token,
    nor has any text of a single code unit, and a page whose only cell
    is ["5"] has the subtotal 0. *)
Theorem single_digit_is_not_a_token :
  matchAll tokenRe (lit "5") = None
  /\ matchAll tokenRe (lit "Qty: 5 pcs") = None
  /\ (forall c, matchAll tokenRe [c] = None)
  /\ accumulate [lit "5"] = Num.zero.
Proof.
  split; [reflexivity|]. split; [reflexivity|]. split; [|reflexivity].
  intros c. unfold matchAll, tokenRe. simpl.
  destruct (Char.isSignOrParen c), (Char.isWhiteSpace c), (Char.isDigit c);
    simpl; reflexivity.
Qed.

(** ** The examples of the page subtotal and of the decimal comma *)

(** C1: on the cell texts ["Revenue: $1,200"] and ["Cost: (300)"] the tokens
    are ["1,200"] and ["(300"]: the closing parenthesis is never part of a
    token, so the second one parses to 300 and the page subtotal is 1500,
    not 900. *)
Theorem revenue_cost_subtotal :
  matchAll tokenRe (lit "Revenue: $1,200") = Some [lit "1,200"]
  /\ matchAll tokenRe (lit "Cost: (300)") = Some [lit "(300"]
  /\ parseNumberFromString (JString (lit "(300")) = Some (Num.ofZ 300)
  /\ accumulate [lit "Revenue: $1,200"; lit "Cost: (300)"] = Num.ofZ 1500
  /\ Num.integerValue
       (accumulate [lit "Revenue: $1,200"; lit "Cost: (300)"])
     = Some 1500%Z
  /\ accumulate [lit "Revenue: $1,200"; lit "Cost: (300)"] <> Num.ofZ 900.
Proof.
  repeat split; try (vm_compute; reflexivity).
  vm_compute. discriminate.
Qed.

(** C3: on ["1234,56"] the comma is deleted as a thousands separator before
    the first parse, which succeeds: the result is 123456, not 1234.56. *)
Theorem comma_decimal_example :
  parseNumberFromString (JString (lit "1234,56")) = Some (Num.ofZ 123456)
  /\ Num.integerValue (Num.ofZ 123456) = Some 123456%Z
  /\ parseNumberFromString (JString (lit "1234,56"))
     <> Some (Num.ofDecimal false 123456 2).
Proof.
  split; [vm_compute; reflexivity|].
  split; [vm_compute; reflexivity | vm_compute; discriminate].
Qed.

(** ** The page subtotal *)

Arguments parseNumberFromString : simpl never.
Arguments matchAll : simpl never.

Lemma addTokens_values total tokens :
  addTokens total tokens =
  fold_left Num.add
    (flat_map
       (fun t =>
          match parseNumberFromString (JString t) with
          | Some v => [v]
          | None => []
          end)
       tokens)
    total.
Proof.
  unfold addTokens. revert total.
  induction tokens as [|t tokens IH]; intros total; simpl; [reflexivity|].
  rewrite IH. destruct (parseNumberFromString (JString t)); reflexivity.
Qed.

Lemma fold_addCell_values cellTexts total :
  fold_left addCell cellTexts total =
  fold_left Num.add (parsedValues cellTexts) total.
Proof.
  revert total.
  induction cellTexts as [|s cellTexts IH]; intros total; [reflexivity|].
  unfold parsedValues in *. simpl. rewrite fold_left_app, IH. f_equal.
  unfold addCell. destruct (matchAll tokenRe s); [|reflexivity].
  apply addTokens_values.
Qed.

(** Both branches of the script run the same loop: the page subtotal is
    the accumulation over the table cells, or over the role-based cells when
    the page has no table cell. *)
Lemma pageSubtotal_accumulate rawCellTexts alt :
  pageSubtotal rawCellTexts alt =
  accumulate (if Nat.eqb (length rawCellTexts) 0 then alt else rawCellTexts).
Proof. destruct rawCellTexts; reflexivity. Qed.

(** C7: the page accumulation is a total function of the cell texts (no
    step of it can throw); a token that parses to [null] leaves the running
    total as it is, so the subtotal is the sum of the parsed values alone; a
    page without any parsed value has the subtotal 0, and so has the empty
    sequence of cell texts. *)
Theorem accumulate_excludes_invalid (cellTexts : list jsstring) :
  accumulate [] = Num.zero
  /\ accumulate cellTexts = fold_left Num.add (parsedValues cellTexts) Num.zero
  /\ (parsedValues cellTexts = [] -> accumulate cellTexts = Num.zero)
  /\ (forall total t rest,
        parseNumberFromString (JString t) = None ->
        addTokens total (t :: rest) = addTokens total rest).
Proof.
  assert (H : accumulate cellTexts =
              fold_left Num.add (parsedValues cellTexts) Num.zero)
    by apply fold_addCell_values.
  split; [reflexivity|]. split; [exact H|]. split.
  - intros Hnil. rewrite H, Hnil. reflexivity.
  - intros total t rest Ht. unfold addTokens. simpl. rewrite Ht. reflexivity.
Qed.

Lemma accumulate_excludes_invalid_witness :
  parsedValues [lit "--12"; lit "n/a"; lit "Qty: 5"] = []
  /\ matchAll tokenRe (lit "--12") = Some [lit "--12"]
  /\ parseNumberFromString (JString (lit "--12")) = None
  /\ accumulate [lit "--12"; lit "n/a"; lit "Qty: 5"] = Num.zero
  /\ addTokens (Num.ofZ 7) [lit "--12"; lit "35"]
     = addTokens (Num.ofZ 7) [lit "35"].
Proof.
  pose proof (accumulate_excludes_invalid
                [lit "--12"; lit "n/a"; lit "Qty: 5"])
    as (_ & _ & Hzero & Hskip).
  split; [reflexivity|]. split; [reflexivity|]. split; [reflexivity|].
  split; [apply Hzero; reflexivity | apply Hskip; reflexivity].
Defined.

(** ** The comma-as-decimal retry *)

Lemma separators_no_comma str c :
  In c (separators str) -> Char.isComma c = false.
Proof.
  unfold separators. destruct (Str.countAll Char.isDot str <=? 1).
  - intros H. apply In_deleteAll in H. tauto.
  - intros H. apply in_app_or in H. destruct H as [H|H].
    + apply In_deleteAll in H. destruct H as [H _].
      apply In_slice, In_deleteAll in H. tauto.
    + apply In_sliceFrom, In_deleteAll in H. tauto.
Qed.

Lemma commasToDots_id s :
  (forall c, In c s -> Char.isComma c = false) -> Str.commasToDots s = s.
Proof.
  unfold Str.commasToDots. induction s as [|c s IH]; intros H; simpl.
  - reflexivity.
  - rewrite (H c) by (left; reflexivity). f_equal.
    apply IH. intros x Hx. apply H. right. exact Hx.
Qed.

Lemma retry_same_string str :
  Str.commasToDots (separators str) = separators str.
Proof. apply commasToDots_id. intros c. apply separators_no_comma. Qed.

(** [parseNumberFromString] on a string, with its intermediate strings
    named. *)
Lemma parseNumberFromString_steps s :
  parseNumberFromString (JString s) =
  match Str.trim s with
  | [] => None
  | _ :: _ =>
      let str := separators (working s) in
      let value := Number str in
      let parsed :=
        if Num.isNaN value then
          let value := Number (Str.commasToDots str) in
          if Num.isNaN value then None else Some value
        else Some value in
      match parsed with
      | None => None
      | Some value =>
          Some (if testAnchored parenRe (stripped s)
                then Num.negAbs value else value)
      end
  end.
Proof. reflexivity. Qed.

Lemma parseNumberFromString_noRetry_steps s :
  parseNumberFromString_noRetry (JString s) =
  match Str.trim s with
  | [] => None
  | _ :: _ =>
      let value := Number (separators (working s)) in
      if Num.isNaN value then None
      else Some (if testAnchored parenRe (stripped s)
                 then Num.negAbs value else value)
  end.
Proof. reflexivity. Qed.

(** C10: when [Number(str)] is first called no comma is left in [str],
    in either branch of the dot count; the retry parses the same string
    again, so a first parse that is [NaN] is followed by a retry that is
    [NaN], and [parseNumberFromString] returns what it returns with the
    retry deleted. *)
Theorem retry_never_changes_the_result :
  (forall v, parseNumberFromString v = parseNumberFromString_noRetry v)
  /\ (forall str,
        Str.countAll Char.isComma (separators str) = 0
        /\ Str.commasToDots (separators str) = separators str
        /\ Num.isNaN (Number (Str.commasToDots (separators str)))
           = Num.isNaN (Number (separators str))).
Proof.
  split.
  - intros [| |s]; try reflexivity.
    rewrite parseNumberFromString_steps, parseNumberFromString_noRetry_steps.
    destruct (Str.trim s) as [|c t]; [reflexivity|].
    cbv zeta. rewrite retry_same_string.
    destruct (Num.isNaN (Number _)); reflexivity.
  - intros str. split; [|split].
    + unfold Str.countAll. rewrite filter_none; [reflexivity|].
      intros c. apply separators_no_comma.
    + apply retry_same_string.
    + rewrite retry_same_string. reflexivity.
Qed.

(** ** The working string *)

Lemma countAll_app cls s t :
  Str.countAll cls (s ++ t) = Str.countAll cls s + Str.countAll cls t.
Proof. unfold Str.countAll. rewrite filter_app, length_app. reflexivity. Qed.

Lemma countAll_rev cls s : Str.countAll cls (rev s) = Str.countAll cls s.
Proof.
  induction s as [|c s IH]; [reflexivity|].
  simpl rev. rewrite countAll_app, IH.
  change (c :: s) with ([c] ++ s). rewrite countAll_app. lia.
Qed.

Section Disjoint.

(** A class [cls] and a class [del] without a common code unit. *)
Variables cls del : codeUnit -> bool.
Hypothesis disjoint : forall c, cls c = true -> del c = false.

Lemma countAll_deleteAll s :
  Str.countAll cls (Str.deleteAll del s) = Str.countAll cls s.
Proof.
  unfold Str.countAll, Str.deleteAll. rewrite filter_filter_keep.
  - reflexivity.
  - intros c Hc. rewrite (disjoint c Hc). reflexivity.
Qed.

End Disjoint.

Section NotWhite.

Variable cls : codeUnit -> bool.
Hypothesis not_white : forall c, cls c = true -> Char.isWhiteSpace c = false.

Lemma countAll_trimStart s :
  Str.countAll cls (Str.trimStart s) = Str.countAll cls s.
Proof.
  induction s as [|c s IH]; [reflexivity|]. simpl.
  destruct (Char.isWhiteSpace c) eqn:Hw; [|reflexivity].
  rewrite IH. unfold Str.countAll. simpl.
  destruct (cls c) eqn:Hc; [|reflexivity].
  apply not_white in Hc. congruence.
Qed.

Lemma countAll_trim s : Str.countAll cls (Str.trim s) = Str.countAll cls s.
Proof.
  unfold Str.trim, Str.trimEnd.
  rewrite countAll_rev, countAll_trimStart, countAll_rev.
  apply countAll_trimStart.
Qed.

End NotWhite.

Lemma countAll_dot_working s :
  Str.countAll Char.isDot (working s) = Str.countAll Char.isDot s.
Proof.
  unfold working.
  rewrite (countAll_deleteAll Char.isDot Char.isWhiteSpace dot_not_white).
  rewrite (countAll_deleteAll Char.isDot Char.isParen dot_not_paren).
  rewrite countAll_deleteAll.
  - apply countAll_trim. exact dot_not_white.
  - intros c Hc. rewrite (dot_number_char c Hc). reflexivity.
Qed.

Lemma countAll_pos_nonempty cls s : 0 < Str.countAll cls s -> s <> [].
Proof. intros H ->. unfold Str.countAll in H. simpl in H. lia. Qed.

(** [parseNumberFromString] on a string, in terms of the working string,
    without the retry. *)
Lemma parseNumberFromString_unfold s :
  Str.trim s <> [] ->
  parseNumberFromString (JString s) =
  let value := Number (separators (working s)) in
  if Num.isNaN value then None
  else Some (if testAnchored parenRe (stripped s)
             then Num.negAbs value else value).
Proof.
  intros Hne. rewrite parseNumberFromString_steps.
  destruct (Str.trim s) as [|c t]; [congruence|].
  cbv zeta. rewrite retry_same_string.
  destruct (Num.isNaN (Number _)); reflexivity.
Qed.

(** ** Several dots *)

Lemma lastIndexOf_range cls s :
  (-1 <= Str.lastIndexOf cls s < Z.of_nat (length s))%Z.
Proof.
  induction s as [|c s IH]; simpl Str.lastIndexOf; simpl length; [lia|].
  destruct (0 <=? Str.lastIndexOf cls s)%Z eqn:H.
  - apply Z.leb_le in H. lia.
  - destruct (cls c); lia.
Qed.

Lemma lastIndexOf_found cls s :
  (0 <=? Str.lastIndexOf cls s)%Z = existsb cls s.
Proof.
  induction s as [|c s IH]; simpl; [reflexivity|].
  destruct (0 <=? Str.lastIndexOf cls s)%Z eqn:H; rewrite <- IH.
  - apply Z.leb_le in H. rewrite orb_true_r. apply Z.leb_le. lia.
  - rewrite orb_false_r. destruct (cls c); reflexivity.
Qed.

Lemma slice_prefix s i :
  (0 <= i <= Z.of_nat (length s))%Z ->
  Str.slice s 0 i = firstn (Z.to_nat i) s.
Proof.
  intros H. unfold Str.slice, Str.clampIndex. simpl.
  replace (i <? 0)%Z with false by (symmetry; apply Z.ltb_ge; lia).
  rewrite Z.min_l by lia. rewrite Z.min_l by lia.
  rewrite Z.sub_0_r. reflexivity.
Qed.

Lemma sliceFrom_suffix s i :
  (0 <= i <= Z.of_nat (length s))%Z ->
  Str.sliceFrom s i = skipn (Z.to_nat i) s.
Proof.
  intros H. unfold Str.sliceFrom, Str.slice, Str.clampIndex.
  replace (i <? 0)%Z with false by (symmetry; apply Z.ltb_ge; lia).
  replace (Z.of_nat (length s) <? 0)%Z with false
    by (symmetry; apply Z.ltb_ge; lia).
  rewrite Z.min_l by lia. rewrite Z.min_l by lia.
  apply firstn_all2. rewrite length_skipn. lia.
Qed.

Lemma dropInnerDots_no_dot s :
  existsb Char.isDot s = false -> dropInnerDots s = s.
Proof.
  induction s as [|c s IH]; simpl; [reflexivity|].
  intros H. apply orb_false_iff in H. destruct H as [_ H].
  rewrite H, andb_false_r, IH by exact H. reflexivity.
Qed.

(** The slices of the script around the last dot, against the
    specification's reading. *)
Lemma slices_drop_inner_dots s :
  existsb Char.isDot s = true ->
  Str.deleteAll Char.isDot (Str.slice s 0 (Str.lastIndexOf Char.isDot s))
    ++ Str.sliceFrom s (Str.lastIndexOf Char.isDot s)
  = dropInnerDots s.
Proof.
  intros Hex.
  pose proof (lastIndexOf_range Char.isDot s) as Hr.
  pose proof (lastIndexOf_found Char.isDot s) as Hf.
  rewrite Hex in Hf. apply Z.leb_le in Hf.
  rewrite slice_prefix, sliceFrom_suffix by lia.
  clear Hr Hf. induction s as [|c s IH]; [discriminate|].
  simpl Str.lastIndexOf. simpl dropInnerDots.
  pose proof (lastIndexOf_found Char.isDot s) as Hf.
  destruct (existsb Char.isDot s) eqn:Hs.
  - rewrite Hf. apply Z.leb_le in Hf.
    rewrite Z2Nat.inj_add by lia. rewrite Nat.add_comm. simpl.
    rewrite <- (IH eq_refl). unfold Str.deleteAll. simpl.
    destruct (Char.isDot c); reflexivity.
  - rewrite Hf. simpl in Hex. rewrite Hs, orb_false_r in Hex.
    rewrite Hex. simpl. rewrite dropInnerDots_no_dot by exact Hs.
    reflexivity.
Qed.

Lemma countAll_existsb cls s :
  0 < Str.countAll cls s -> existsb cls s = true.
Proof.
  unfold Str.countAll. induction s as [|c s IH]; simpl; [lia|].
  destruct (cls c); simpl; [reflexivity|exact IH].
Qed.

Lemma separators_several_dots str :
  1 < Str.countAll Char.isDot str ->
  separators str = dropInnerDots (Str.deleteAll Char.isComma str).
Proof.
  intros H. unfold separators.
  destruct (Str.countAll Char.isDot str <=? 1) eqn:Hle.
  - apply Nat.leb_le in Hle. lia.
  - apply slices_drop_inner_dots, countAll_existsb.
    rewrite (countAll_deleteAll Char.isDot Char.isComma dot_not_comma). lia.
Qed.

(** What is left by [dropInnerDots]: the text before the last dot without
    its dots, the last dot, and the text after it as it was. *)
Lemma dropInnerDots_shape s :
  existsb Char.isDot s = true ->
  exists pre post,
    s = pre ++ 46%N :: post
    /\ existsb Char.isDot post = false
    /\ dropInnerDots s = Str.deleteAll Char.isDot pre ++ 46%N :: post.
Proof.
  induction s as [|c s IH]; [discriminate|]. simpl. intros Hex.
  destruct (existsb Char.isDot s) eqn:Hs.
  - destruct (IH eq_refl) as (pre & post & -> & Hpost & Hd).
    exists (c :: pre), post. split; [reflexivity|]. split; [exact Hpost|].
    rewrite andb_true_r, Hd. unfold Str.deleteAll. simpl.
    destruct (Char.isDot c); reflexivity.
  - rewrite orb_false_r in Hex. exists [], s.
    assert (c = 46%N) as -> by (apply N.eqb_eq; exact Hex).
    split; [reflexivity|]. split; [exact Hs|].
    simpl. rewrite dropInnerDots_no_dot by exact Hs. reflexivity.
Qed.

(** C5: on a token with more than one dot, the string that is parsed is the
    working string with its commas deleted and every dot but the last one
    removed: the text before the last dot loses its dots (its digit groups
    are joined), the last dot and the text after it stay; the result of
    [parseNumberFromString] is the number read from that string.  So
    ["1.234.567"] gives 1234.567. *)
Theorem several_dots_last_is_decimal (s : jsstring) :
  1 < Str.countAll Char.isDot s ->
  let str := Str.deleteAll Char.isComma (working s) in
  separators (working s) = dropInnerDots str
  /\ (exists pre post,
        str = pre ++ 46%N :: post
        /\ Str.countAll Char.isDot post = 0
        /\ separators (working s)
           = Str.deleteAll Char.isDot pre ++ 46%N :: post)
  /\ parseNumberFromString (JString s)
     = (let value := Number (dropInnerDots str) in
        if Num.isNaN value then None
        else Some (if testAnchored parenRe (stripped s)
                   then Num.negAbs value else value))
  /\ parseNumberFromString (JString (lit "1.234.567"))
     = Some (Num.ofDecimal false 1234567 3).
Proof.
  intros Hdots str.
  assert (Hw : 1 < Str.countAll Char.isDot (working s))
    by (rewrite countAll_dot_working; exact Hdots).
  assert (Hsep : separators (working s) = dropInnerDots str)
    by (apply separators_several_dots; exact Hw).
  split; [exact Hsep|]. split; [|split].
  - destruct (dropInnerDots_shape str) as (pre & post & Hstr & Hpost & Hd).
    { apply countAll_existsb. unfold str.
      rewrite (countAll_deleteAll Char.isDot Char.isComma dot_not_comma).
      lia. }
    exists pre, post. split; [exact Hstr|]. split.
    + unfold Str.countAll. rewrite filter_none; [reflexivity|].
      intros c Hc. destruct (Char.isDot c) eqn:Hdot; [|reflexivity].
      rewrite <- Hpost. symmetry. apply existsb_exists. eauto.
    + rewrite Hsep. exact Hd.
  - rewrite parseNumberFromString_unfold.
    + rewrite Hsep. reflexivity.
    + apply countAll_pos_nonempty with (cls := Char.isDot).
      rewrite (countAll_trim Char.isDot dot_not_white). lia.
  - vm_compute. reflexivity.
Qed.

Lemma several_dots_last_is_decimal_witness :
  separators (working (lit "$ 1.2,34.567.89"))
  = lit "1234567.89"
  /\ parseNumberFromString (JString (lit "$ 1.2,34.567.89"))
     = Some (Num.ofDecimal false 123456789 2).
Proof.
  destruct (several_dots_last_is_decimal (lit "$ 1.2,34.567.89"))
    as (Hsep & _ & Hparse & _).
  - vm_compute. lia.
  - split.
    + rewrite Hsep. vm_compute. reflexivity.
    + rewrite Hparse. vm_compute. reflexivity.
Defined.

(** ** Trimming *)

Lemma trimStart_split s :
  exists lead,
    s = lead ++ Str.trimStart s
    /\ Forall (fun c => Char.isWhiteSpace c = true) lead.
Proof.
  induction s as [|c s (lead & IH & Hlead)]; simpl.
  - exists []. split; [reflexivity | constructor].
  - destruct (Char.isWhiteSpace c) eqn:Hw.
    + exists (c :: lead). split; [simpl; f_equal; exact IH|].
      constructor; assumption.
    + exists []. split; [reflexivity | constructor].
Qed.

Lemma trimEnd_split s :
  exists trail,
    s = Str.trimEnd s ++ trail
    /\ Forall (fun c => Char.isWhiteSpace c = true) trail.
Proof.
  destruct (trimStart_split (rev s)) as (lead & H & Hlead).
  exists (rev lead). split.
  - unfold Str.trimEnd. rewrite <- rev_app_distr, <- H, rev_involutive.
    reflexivity.
  - apply Forall_rev. exact Hlead.
Qed.

Lemma trim_split s :
  exists lead trail,
    s = lead ++ Str.trim s ++ trail
    /\ Forall (fun c => Char.isWhiteSpace c = true) lead
    /\ Forall (fun c => Char.isWhiteSpace c = true) trail.
Proof.
  destruct (trimStart_split s) as (lead & H1 & Hlead).
  destruct (trimEnd_split (Str.trimStart s)) as (trail & H2 & Htrail).
  exists lead, trail. unfold Str.trim. rewrite <- H2. auto.
Qed.

Lemma In_trim s c : In c (Str.trim s) -> In c s.
Proof.
  destruct (trim_split s) as (lead & trail & H & _). intros Hc.
  rewrite H. apply in_or_app. right. apply in_or_app. left. exact Hc.
Qed.

Lemma trimStart_id s :
  (forall c, In c s -> Char.isWhiteSpace c = false) -> Str.trimStart s = s.
Proof.
  destruct s as [|c s]; [reflexivity|]. intros H. simpl.
  rewrite (H c) by (left; reflexivity). reflexivity.
Qed.

Lemma trim_id s :
  (forall c, In c s -> Char.isWhiteSpace c = false) -> Str.trim s = s.
Proof.
  intros H. unfold Str.trim, Str.trimEnd.
  rewrite (trimStart_id s H), trimStart_id.
  - apply rev_involutive.
  - intros c Hc. apply H. apply in_rev. exact Hc.
Qed.

Lemma trim_nil_inv s : Str.trim s = [] -> stripped s = [].
Proof. unfold stripped. intros ->. reflexivity. Qed.

Lemma In_working s c : In c (working s) -> In c s /\ Char.isWhiteSpace c = false.
Proof.
  unfold working. intros H.
  apply In_deleteAll in H. destruct H as [H Hw].
  apply In_deleteAll in H. destruct H as [H _].
  apply In_deleteAll in H. destruct H as [H _].
  split; [apply In_trim; exact H | exact Hw].
Qed.

Lemma In_separators str c : In c (separators str) -> In c str.
Proof.
  unfold separators. destruct (Str.countAll Char.isDot str <=? 1).
  - intros H. apply In_deleteAll in H. tauto.
  - intros H. apply in_app_or in H. destruct H as [H|H].
    + apply In_deleteAll in H. destruct H as [H _].
      apply In_slice, In_deleteAll in H. tauto.
    + apply In_sliceFrom, In_deleteAll in H. tauto.
Qed.

(** What [Number] is called on holds digits, dots and minus signs only,
    and so does the string of the retry. *)
Lemma Number_argument_alphabet s c :
  In c (separators (working s)) \/
  In c (Str.commasToDots (separators (working s))) ->
  Char.isDigit c || Char.isDot c || Char.isMinus c = true.
Proof.
  rewrite retry_same_string. intros H.
  assert (Hin : In c (separators (working s))) by tauto. clear H.
  pose proof (separators_no_comma _ _ Hin) as Hcomma.
  apply In_separators in Hin. unfold working in Hin.
  apply In_deleteAll in Hin. destruct Hin as [Hin Hwhite].
  apply In_deleteAll in Hin. destruct Hin as [Hin Hparen].
  apply In_deleteAll in Hin. destruct Hin as [_ Hnum].
  apply negb_false_iff in Hnum. unfold Char.isNumberChar in Hnum.
  rewrite Hcomma, Hparen, Hwhite, !orb_false_r in Hnum. exact Hnum.
Qed.

(** ** Reading numbers *)

Lemma takeDigits_no_digit u :
  (forall c, In c u -> Char.isDigit c = false) -> Num.takeDigits u = ([], u).
Proof.
  destruct u as [|c u]; [reflexivity|]. intros H. simpl.
  rewrite (H c) by (left; reflexivity). reflexivity.
Qed.

Lemma unsignedDecimal_no_digit u :
  (forall c, In c u -> Char.isDigit c = false) -> Num.unsignedDecimal u = None.
Proof.
  intros H. unfold Num.unsignedDecimal. rewrite takeDigits_no_digit by exact H.
  destruct u as [|c u]; [reflexivity|].
  destruct (Char.isDot c); [|reflexivity].
  rewrite takeDigits_no_digit.
  - destruct u; reflexivity.
  - intros x Hx. apply H. right. exact Hx.
Qed.

(** A string that is not empty, without white space and without a digit,
    is not a numeric literal. *)
Lemma Number_no_digit str :
  str <> [] ->
  (forall c, In c str -> Char.isWhiteSpace c = false) ->
  (forall c, In c str -> Char.isDigit c = false) ->
  Number str = Num.NaN.
Proof.
  intros Hne Hw Hd. unfold Number. rewrite trim_id by exact Hw.
  destruct str as [|c r]; [congruence|].
  assert (Hr : Num.unsignedDecimal r = None).
  { apply unsignedDecimal_no_digit. intros x Hx. apply Hd. right. exact Hx. }
  rewrite Hr, (unsignedDecimal_no_digit (c :: r) Hd).
  destruct (Char.isMinus c), (Char.isPlus c); reflexivity.
Qed.

Lemma takeDigits_all ds :
  (forall c, In c ds -> Char.isDigit c = true) -> Num.takeDigits ds = (ds, []).
Proof.
  induction ds as [|c ds IH]; intros H; simpl; [reflexivity|].
  rewrite (H c) by (left; reflexivity).
  rewrite IH; [reflexivity|]. intros x Hx. apply H. right. exact Hx.
Qed.

Lemma unsignedDecimal_digits ds :
  ds <> [] ->
  (forall c, In c ds -> Char.isDigit c = true) ->
  Num.unsignedDecimal ds = Some (Num.digitsValue ds, 0).
Proof.
  intros Hne H. unfold Num.unsignedDecimal. rewrite takeDigits_all by exact H.
  destruct ds; [congruence | reflexivity].
Qed.

(** ** Rounding never gives NaN *)

Section Rounding.

Let nonneg (mrs : shr_record) : Prop := (0 <= shr_m mrs)%Z.

Lemma shr_1_nonneg mrs : nonneg mrs -> nonneg (shr_1 mrs).
Proof.
  unfold nonneg. destruct mrs as [m r s]. simpl.
  destruct m as [|p|p]; try destruct p; simpl; lia.
Qed.

Lemma iter_pos_nonneg n : forall mrs,
  nonneg mrs -> nonneg (iter_pos shr_1 n mrs).
Proof.
  induction n as [n IH|n IH|]; simpl; intros mrs H.
  - apply IH, IH, shr_1_nonneg, H.
  - apply IH, IH, H.
  - apply shr_1_nonneg, H.
Qed.

Lemma shr_fexp_nonneg m e l :
  (0 <= m)%Z -> nonneg (fst (shr_fexp Num.prec Num.emax m e l)).
Proof.
  intros H. unfold shr_fexp, shr.
  assert (H0 : nonneg (shr_record_of_loc m l)).
  { unfold nonneg. destruct l as [|[ | | ]]; simpl; exact H. }
  destruct (_ - e)%Z; simpl; [exact H0 | | exact H0].
  apply iter_pos_nonneg, H0.
Qed.

Lemma round_nearest_even_nonneg m l :
  (0 <= m)%Z -> (0 <= round_nearest_even m l)%Z.
Proof.
  intros H. unfold round_nearest_even.
  destruct l as [|[ | | ]]; try destruct (Z.even m); lia.
Qed.

Lemma binary_round_aux_not_NaN sx mx ex lx :
  (0 <= mx)%Z ->
  Num.isNaN (binary_round_aux Num.prec Num.emax sx mx ex lx) = false.
Proof.
  intros H. unfold binary_round_aux.
  pose proof (shr_fexp_nonneg mx ex lx H) as H1.
  destruct (shr_fexp Num.prec Num.emax mx ex lx) as [mrs' e'].
  simpl in H1.
  pose proof (shr_fexp_nonneg _ e' loc_Exact
                (round_nearest_even_nonneg _ (loc_of_shr_record mrs') H1))
    as H2.
  destruct (shr_fexp Num.prec Num.emax _ e' loc_Exact) as [mrs'' e''].
  simpl in H2. unfold nonneg in H2.
  destruct (shr_m mrs'') as [|m|m]; [reflexivity| |lia].
  destruct (e'' <=? Num.emax - Num.prec)%Z; reflexivity.
Qed.

(** The number value of a decimal is a number. *)
Lemma ofDecimal_not_NaN neg m k :
  Num.isNaN (Num.ofDecimal neg m k) = false.
Proof.
  unfold Num.ofDecimal. destruct m as [|p]; [reflexivity|].
  unfold SFdiv, SFdiv_core_binary.
  set (q := Z.to_pos (10 ^ Z.of_nat k)).
  set (m' := match (_ - _ - _)%Z with
             | Z0 => Zpos p
             | Zpos _ => Z.shiftl (Zpos p) _
             | Zneg _ => 0%Z
             end).
  assert (Hm' : (0 <= m')%Z).
  { unfold m'. destruct (_ - _ - _)%Z; try lia.
    apply Z.shiftl_nonneg. lia. }
  pose proof (Z_div_mod m' (Zpos q) eq_refl) as Hdiv.
  destruct (Z.div_eucl m' (Zpos q)) as [mz r].
  apply binary_round_aux_not_NaN. nia.
Qed.

End Rounding.

(** ** Safe integers are exact *)

Section Exact.

Lemma shiftl_pos p k : Z.shiftl (Zpos p) (Zpos k) = Zpos (Pos.iter xO p k).
Proof.
  unfold Z.shiftl. symmetry.
  apply (Pos.iter_swap_gen _ _ Zpos xO (Z.mul 2)). reflexivity.
Qed.

Lemma digits2_iter_xO p k :
  digits2_pos (Pos.iter xO p k) = (digits2_pos p + k)%positive.
Proof.
  induction k as [|k IH] using Pos.peano_ind.
  - simpl. lia.
  - rewrite Pos.iter_succ. simpl. rewrite IH. lia.
Qed.

Lemma iter_xO_value p k :
  Zpos (Pos.iter xO p k) = (Zpos p * 2 ^ Zpos k)%Z.
Proof.
  induction k as [|k IH] using Pos.peano_ind.
  - simpl. lia.
  - rewrite Pos.iter_succ, Pos2Z.inj_xO, IH, Pos2Z.inj_succ,
      Z.pow_succ_r by lia.
    lia.
Qed.

Lemma iter_xO_even p k : exists q, Pos.iter xO p k = xO q.
Proof.
  destruct k as [|k] using Pos.peano_ind.
  - exists p. reflexivity.
  - rewrite Pos.iter_succ. eauto.
Qed.

Lemma div_eucl_1 a : Z.div_eucl a 1 = (a, 0%Z).
Proof.
  pose proof (Z_div_mod a 1 eq_refl) as H.
  destruct (Z.div_eucl a 1) as [q r]. f_equal; lia.
Qed.

(** An integer of at most 53 bits is shifted to 53 bits, and nothing is
    rounded off. *)
Lemma ofDecimal_integer neg p :
  (Zpos (digits2_pos p) <= 53)%Z ->
  exists q,
    Num.ofDecimal neg (Npos p) 0
    = S754_finite neg q (Zpos (digits2_pos p) - 53)
    /\ Zpos q = (Zpos p * 2 ^ (53 - Zpos (digits2_pos p)))%Z.
Proof.
  intros Hd. unfold Num.ofDecimal.
  change (Z.to_pos (10 ^ Z.of_nat 0)) with 1%positive.
  unfold SFdiv, SFdiv_core_binary.
  set (d := digits2_pos p) in *.
  change (Zdigits2 (Zpos p)) with (Zpos d).
  change (Zdigits2 1) with 1%Z.
  replace (Z.min (fexp Num.prec Num.emax (Z.pos d + 0 - (1 + 0))) (0 - 0))%Z
    with (Zpos d - 54)%Z
    by (unfold fexp, emin, Num.prec, Num.emax; lia).
  destruct (0 - 0 - (Z.pos d - 54))%Z as [|k|k] eqn:Hk; try lia.
  rewrite shiftl_pos, div_eucl_1.
  change (new_location 1 0) with loc_Exact.
  rewrite xorb_false_r.
  destruct (iter_xO_even p k) as [q Hq].
  assert (Hdq : digits2_pos q = 53%positive).
  { pose proof (digits2_iter_xO p k) as H. rewrite Hq in H.
    simpl in H. fold d in H. lia. }
  assert (Hvq : Zpos q = (Zpos p * 2 ^ (53 - Zpos d))%Z).
  { pose proof (iter_xO_value p k) as H. rewrite Hq in H.
    replace (Zpos k) with (Z.succ (53 - Zpos d)) in H by lia.
    rewrite Z.pow_succ_r in H by lia. lia. }
  exists q. split; [|exact Hvq].
  unfold binary_round_aux, shr_fexp. rewrite Hq.
  change (Zdigits2 (Zpos q~0)) with (Zpos (Pos.succ (digits2_pos q))).
  rewrite Hdq.
  replace (fexp Num.prec Num.emax (Z.pos (Pos.succ 53) + (Z.pos d - 54))
           - (Z.pos d - 54))%Z
    with 1%Z
    by (unfold fexp, emin, Num.prec, Num.emax; lia).
  cbn [shr shr_record_of_loc iter_pos shr_1 shr_m loc_of_shr_record
       round_nearest_even orb].
  change (Zdigits2 (Zpos q)) with (Zpos (digits2_pos q)). rewrite Hdq.
  replace (fexp Num.prec Num.emax (53 + (Z.pos d - 54 + 1))
           - (Z.pos d - 54 + 1))%Z
    with 0%Z
    by (unfold fexp, emin, Num.prec, Num.emax; lia).
  cbn [shr shr_m].
  replace (Z.pos d - 54 + 1 <=? Num.emax - Num.prec)%Z with true
    by (symmetry; apply Z.leb_le; unfold Num.prec, Num.emax; lia).
  f_equal. lia.
Qed.

Lemma digits2_pos_size p : digits2_pos p = Pos.size p.
Proof. induction p; simpl; congruence. Qed.

Lemma digits2_pos_safe p :
  (Zpos p <= MAX_SAFE_INTEGER)%Z -> (Zpos (digits2_pos p) <= 53)%Z.
Proof.
  intros H. rewrite digits2_pos_size.
  pose proof (Pos.size_le p) as Hs.
  destruct (Z.le_gt_cases (Zpos (Pos.size p)) 53) as [Hle|Hgt];
    [exact Hle|].
  exfalso.
  assert (H54 : (2 ^ 54 <= 2 ^ Zpos (Pos.size p))%Z)
    by (apply Z.pow_le_mono_r; lia).
  assert (Hpow : (2 ^ Zpos (Pos.size p) <= Zpos p~0)%Z).
  { rewrite <- Pos2Z.inj_pow. apply Pos2Z.pos_le_pos. exact Hs. }
  unfold MAX_SAFE_INTEGER in H.
  change (2 ^ 54)%Z with 18014398509481984%Z in H54.
  change (2 ^ 53 - 1)%Z with 9007199254740991%Z in H.
  lia.
Qed.

Lemma ofDecimal_integer_value neg p :
  (Zpos p <= MAX_SAFE_INTEGER)%Z ->
  Num.integerValue (Num.ofDecimal neg (Npos p) 0)
  = Some (cond_Zopp neg (Zpos p)).
Proof.
  intros Hp. pose proof (digits2_pos_safe p Hp) as Hd.
  destruct (ofDecimal_integer neg p Hd) as (q & -> & Hq).
  unfold Num.integerValue.
  destruct (0 <=? Z.pos (digits2_pos p) - 53)%Z eqn:He.
  - apply Z.leb_le in He.
    replace (Z.pos (digits2_pos p) - 53)%Z with 0%Z by lia.
    replace (53 - Z.pos (digits2_pos p))%Z with 0%Z in Hq by lia.
    do 2 f_equal. lia.
  - apply Z.leb_gt in He.
    replace (- (Z.pos (digits2_pos p) - 53))%Z
      with (53 - Z.pos (digits2_pos p))%Z by lia.
    rewrite Hq, Z.mod_mul, Z.div_mul by (apply Z.pow_nonzero; lia).
    reflexivity.
Qed.

(** The number value of a safe integer is that integer. *)
Lemma ofZ_exact z :
  (- MAX_SAFE_INTEGER <= z <= MAX_SAFE_INTEGER)%Z ->
  Num.integerValue (Num.ofZ z) = Some z.
Proof.
  intros Hz. unfold Num.ofZ.
  destruct z as [|p|p]; [reflexivity|..];
    change (Z.abs_N _) with (Npos p);
    rewrite ofDecimal_integer_value by lia; reflexivity.
Qed.

End Exact.

Lemma negAbs_signBit v : Num.isNaN v = false -> Num.signBit (Num.negAbs v) = true.
Proof. destruct v; simpl; [reflexivity..|discriminate|reflexivity]. Qed.

(** ** Parenthesized negatives *)

(** The parenthesis test holds of a string that is, between white space, an
    opening parenthesis, a text without line terminator and a closing
    parenthesis. *)
Lemma parenRe_accepts str mid :
  Str.trim str = 40%N :: mid ++ [41%N] ->
  (forall c, In c mid -> Char.isLineTerminator c = false) ->
  testAnchored parenRe str = true.
Proof.
  intros Htrim Hmid.
  destruct (trim_split str) as (lead & trail & Hstr & Hlead & Htrail).
  rewrite Htrim in Hstr.
  assert (Hacc : accepts parenRe str []).
  { replace str with
      (lead ++ 40%N :: mid ++ 41%N :: trail ++ []).
    2:{ rewrite Hstr, app_nil_r. simpl. rewrite <- app_assoc. reflexivity. }
    unfold parenRe.
    apply acc_many; [exact Hlead|].
    apply acc_one; [reflexivity|].
    apply acc_many.
    { apply Forall_forall. intros c Hc. unfold Char.isAny.
      rewrite (Hmid c Hc). reflexivity. }
    apply acc_one; [reflexivity|].
    apply acc_many; [exact Htrail|].
    apply acc_end. apply acc_nil. }
  apply matchHere_complete in Hacc. destruct Hacc as [n Hn].
  rewrite app_nil_r in Hn. unfold testAnchored. rewrite Hn. reflexivity.
Qed.

(** C4: on a parenthesized text with a line break inside the code does
    not negate.  ["(1\n2)"] is enclosed in parentheses once stripped and
    trimmed, yet the [.] of the parenthesis test does not match the line
    feed: the test fails and the result is +12, not -12, although the same
    text with a space for the line feed, ["(1 2)"], gives -12 (the line feed
    is deleted as white space like the space). *)
Lemma paren_line_break_not_negated :
  let s := [40; 49; 10; 50; 41]%N in
  Str.trim (stripped s) = 40%N :: [49; 10; 50]%N ++ [41%N]
  /\ parseNumberFromString (JString s) = Some (Num.ofZ 12)
  /\ Number (separators (working s)) = Num.ofZ 12
  /\ Num.ofZ 12 <> Num.negAbs (Num.ofZ 12)
  /\ parseNumberFromString (JString (lit "(1 2)")) = Some (Num.ofZ (-12)).
Proof.
  repeat split; try (vm_compute; reflexivity).
  vm_compute. discriminate.
Qed.

(** X17: when the stripped string, trimmed, is an opening
    parenthesis, a text without line terminator and a closing parenthesis,
    the parenthesis test holds and a successful parse returns minus the
    absolute value of the number read, whose sign bit is set whatever the
    sign written inside.  So ["(1,234.56)"] gives -1234.56, and ["(-5)"]
    gives -5. *)
Theorem paren_negative (s mid : jsstring) :
  Str.trim (stripped s) = 40%N :: mid ++ [41%N] ->
  (forall c, In c mid -> Char.isLineTerminator c = false) ->
  testAnchored parenRe (stripped s) = true
  /\ (forall v,
        parseNumberFromString (JString s) = Some v ->
        v = Num.negAbs (Number (separators (working s)))
        /\ Num.signBit v = true)
  /\ parseNumberFromString (JString (lit "(1,234.56)"))
     = Some (Num.ofDecimal true 123456 2)
  /\ parseNumberFromString (JString (lit "(-5)")) = Some (Num.ofZ (-5)).
Proof.
  intros Htrim Hmid.
  assert (Htest : testAnchored parenRe (stripped s) = true)
    by (eapply parenRe_accepts; eassumption).
  split; [exact Htest|]. split; [|split; vm_compute; reflexivity].
  intros v Hv. rewrite parseNumberFromString_unfold in Hv.
  - cbv zeta in Hv. rewrite Htest in Hv.
    destruct (Num.isNaN (Number (separators (working s)))) eqn:Hnan;
      [discriminate|].
    injection Hv as <-. split; [reflexivity|].
    apply negAbs_signBit. exact Hnan.
  - intros Hnil. apply trim_nil_inv in Hnil. rewrite Hnil in Htrim.
    discriminate.
Qed.

Lemma paren_negative_witness :
  testAnchored parenRe (stripped (lit " USD (-1,234.5) ")) = true
  /\ parseNumberFromString (JString (lit " USD (-1,234.5) "))
     = Some (Num.ofDecimal true 12345 1).
Proof.
  destruct (paren_negative (lit " USD (-1,234.5) ") (lit "-1,234.5"))
    as (Htest & Hv & _).
  - vm_compute. reflexivity.
  - intros c Hc. simpl in Hc.
    repeat (destruct Hc as [<-|Hc]; [reflexivity|]). destruct Hc.
  - split; [exact Htest|].
    destruct (parseNumberFromString (JString (lit " USD (-1,234.5) ")))
      as [v|] eqn:Hp; [|vm_compute in Hp; discriminate].
    destruct (Hv v eq_refl) as [-> _]. vm_compute. reflexivity.
Defined.

(** ** Inputs that are rejected *)

(** C8: the separator-only inputs that are empty once their commas and
    parentheses are deleted are not rejected.  The input is tested for
    emptiness before the strip only, and [Number('')] is 0: so [","] gives 0
    and ["()"] gives -0, although [""] gives [null]. *)
Lemma comma_only_is_zero :
  parseNumberFromString (JString (lit ",")) = Some Num.zero
  /\ parseNumberFromString (JString (lit "()")) = Some (S754_zero true)
  /\ Number [] = Num.zero
  /\ parseNumberFromString (JString (lit "")) = None.
Proof. repeat split; vm_compute; reflexivity. Qed.

(** X18: [null] is returned for ["--"], for [""], for every input
    that is empty once trimmed, and for every input without a digit of which
    something is left (a minus sign or a dot) once it is stripped and its
    parentheses, white space and commas are deleted; no input makes
    [parseNumberFromString] throw (it is a total function). *)
Theorem rejected_inputs :
  parseNumberFromString (JString (lit "--")) = None
  /\ parseNumberFromString (JString (lit "")) = None
  /\ (forall s, Str.trim s = [] -> parseNumberFromString (JString s) = None)
  /\ (forall s,
        (forall c, In c s -> Char.isDigit c = false) ->
        separators (working s) <> [] ->
        parseNumberFromString (JString s) = None).
Proof.
  split; [reflexivity|]. split; [reflexivity|]. split.
  - intros s Hs. unfold parseNumberFromString. rewrite Hs. reflexivity.
  - intros s Hd Hne.
    assert (Hnan : Number (separators (working s)) = Num.NaN).
    { apply Number_no_digit; [exact Hne| |].
      - intros c Hc. apply In_separators, In_working in Hc. tauto.
      - intros c Hc. apply In_separators, In_working in Hc.
        apply Hd. tauto. }
    rewrite parseNumberFromString_unfold.
    + cbv zeta. rewrite Hnan. reflexivity.
    + intros Hnil. apply Hne. unfold working. rewrite Hnil. reflexivity.
Qed.

Lemma rejected_inputs_witness :
  parseNumberFromString (JString (lit "   ")) = None
  /\ parseNumberFromString (JString (lit "(-.-), n/a")) = None.
Proof.
  destruct rejected_inputs as (_ & _ & Hempty & Hsep). split.
  - apply Hempty. reflexivity.
  - apply Hsep.
    + intros c Hc. simpl in Hc.
      repeat (destruct Hc as [<-|Hc]; [reflexivity|]). destruct Hc.
    + vm_compute. discriminate.
Defined.

(** ** Plain integers *)

Section Decimal.

Import Decimal.
Import DecimalPos.Unsigned.








End Decimal.






(** ** The shape of a token *)

(** What the token pattern accepts: sign and parenthesis marks, white
    space, a digit, a body, a digit. *)
Lemma tokenRe_shape p rest :
  accepts tokenRe p rest ->
  exists marks spaces d1 body d2,
    p = marks ++ spaces ++ d1 :: body ++ [d2]
    /\ Char.isDigit d1 = true /\ Char.isDigit d2 = true.
Proof.
  unfold tokenRe. intros H.
  inversion H as [| |cls1 r1 marks p1 rest1 _ H1|]; subst; clear H.
  inversion H1 as [| |cls2 r2 spaces p2 rest2 _ H2|]; subst; clear H1.
  inversion H2 as [|cls3 r3 d1 p3 rest3 Hd1 H3| |]; subst; clear H2.
  inversion H3 as [| |cls4 r4 body p4 rest4 _ H4|]; subst; clear H3.
  inversion H4 as [|cls5 r5 d2 p5 rest5 Hd2 H5| |]; subst; clear H4.
  inversion H5; subst; clear H5.
  exists marks, spaces, d1, body, d2. auto.
Qed.

Lemma token_shape s tokens t :
  matchAll tokenRe s = Some tokens -> In t tokens ->
  exists marks spaces d1 body d2,
    t = marks ++ spaces ++ d1 :: body ++ [d2]
    /\ Char.isDigit d1 = true /\ Char.isDigit d2 = true.
Proof.
  unfold matchAll. intros Hm Ht.
  assert (Hin : In t (scan tokenRe s 0)).
  { destruct (scan tokenRe s 0); [discriminate|].
    injection Hm as <-. exact Ht. }
  apply scan_In in Hin. destruct Hin as (s' & n & Hn & ->).
  apply matchHere_sound in Hn. destruct Hn as [_ Hacc].
  eapply tokenRe_shape. exact Hacc.
Qed.

(** A token holds two digits at least. *)
Lemma token_two_digits s tokens t :
  matchAll tokenRe s = Some tokens -> In t tokens -> 2 <= length t.
Proof.
  intros Hm Ht.
  destruct (token_shape s tokens t Hm Ht) as (m & w & d1 & b & d2 & -> & _).
  rewrite !length_app. simpl. rewrite length_app. simpl. lia.
Qed.

Lemma trimStart_snoc u d :
  Char.isWhiteSpace d = false ->
  Str.trimStart (u ++ [d]) = Str.trimStart u ++ [d].
Proof.
  intros Hd. induction u as [|c u IH]; simpl.
  - rewrite Hd. reflexivity.
  - destruct (Char.isWhiteSpace c); [exact IH | reflexivity].
Qed.

Lemma trimEnd_snoc u d :
  Char.isWhiteSpace d = false -> Str.trimEnd (u ++ [d]) = u ++ [d].
Proof.
  intros Hd. unfold Str.trimEnd. rewrite rev_app_distr. simpl.
  rewrite Hd. simpl. rewrite rev_involutive. reflexivity.
Qed.

(** A string that ends with a digit still does once stripped. *)
Lemma stripped_snoc u d :
  Char.isDigit d = true -> exists w, stripped (u ++ [d]) = w ++ [d].
Proof.
  intros Hd. unfold stripped, Str.trim.
  rewrite trimStart_snoc, trimEnd_snoc by (apply digit_not_white; exact Hd).
  unfold Str.deleteAll. rewrite filter_app. simpl.
  rewrite (digit_number_char d Hd). simpl. eauto.
Qed.

(** The parenthesis test fails on every string that ends with a digit. *)
Lemma parenRe_ends_with_digit w d :
  Char.isDigit d = true -> testAnchored parenRe (w ++ [d]) = false.
Proof.
  intros Hd. unfold testAnchored.
  destruct (matchHere parenRe (w ++ [d])) as [n|] eqn:Hn; [|reflexivity].
  exfalso. apply matchHere_sound in Hn. destruct Hn as [_ Hacc].
  assert (Hw : w ++ [d] = firstn n (w ++ [d]) ++ skipn n (w ++ [d]))
    by (symmetry; apply firstn_skipn).
  revert Hw Hacc.
  generalize (firstn n (w ++ [d])) (skipn n (w ++ [d])).
  intros p rest Hw H. unfold parenRe in H.
  inversion H as [| |cls1 r1 q1 p1 rest1 _ H1|]; subst; clear H.
  inversion H1 as [|cls2 r2 c2 p2 rest2 _ H2| |]; subst; clear H1.
  inversion H2 as [| |cls3 r3 q3 p3 rest3 _ H3|]; subst; clear H2.
  inversion H3 as [|cls4 r4 c4 p4 rest4 Hc4 H4| |]; subst; clear H3.
  inversion H4 as [| |cls5 r5 q5 p5 rest5 Hq5 H5|]; subst; clear H4.
  inversion H5 as [| | |r6 H6]; subst; clear H5.
  rewrite !app_nil_r in Hw.
  destruct q5 as [|c5 q5'] using rev_ind.
  - assert (Hw' : w ++ [d] = (q1 ++ c2 :: q3) ++ [c4]).
    { rewrite Hw, <- app_assoc. reflexivity. }
    apply app_inj_tail in Hw'. destruct Hw' as [_ ->].
    revert Hd Hc4. clear. char_solve.
  - assert (Hw' : w ++ [d] = (q1 ++ c2 :: q3 ++ c4 :: q5') ++ [c5]).
    { rewrite Hw, <- !app_assoc. simpl. rewrite <- app_assoc. reflexivity. }
    apply app_inj_tail in Hw'. destruct Hw' as [_ ->].
    apply Forall_app in Hq5. destruct Hq5 as [_ Hx].
    inversion Hx as [|? ? Hx' _]; subst.
    rewrite (digit_not_white c5 Hd) in Hx'. discriminate.
Qed.

(** No token of a cell passes the parenthesis test: its last code unit is
    a digit, never a closing parenthesis. *)
Lemma token_never_paren_negative s tokens t :
  matchAll tokenRe s = Some tokens -> In t tokens ->
  testAnchored parenRe (stripped t) = false.
Proof.
  intros Hm Ht.
  destruct (token_shape s tokens t Hm Ht)
    as (m & w & d1 & b & d2 & -> & _ & Hd2).
  replace (m ++ w ++ d1 :: b ++ [d2]) with ((m ++ w ++ d1 :: b) ++ [d2])
    by (rewrite <- !app_assoc; reflexivity).
  destruct (stripped_snoc (m ++ w ++ d1 :: b) d2 Hd2) as [u ->].
  apply parenRe_ends_with_digit. exact Hd2.
Qed.

(** ** The parenthesis test, exactly *)

Lemma trimStart_lead q c r :
  Forall (fun x => Char.isWhiteSpace x = true) q ->
  Char.isWhiteSpace c = false ->
  Str.trimStart (q ++ c :: r) = c :: r.
Proof.
  intros Hq Hc. induction Hq as [|x q Hx _ IH]; simpl.
  - rewrite Hc. reflexivity.
  - rewrite Hx. exact IH.
Qed.

Lemma trimEnd_trail r c q :
  Forall (fun x => Char.isWhiteSpace x = true) q ->
  Char.isWhiteSpace c = false ->
  Str.trimEnd (r ++ c :: q) = r ++ [c].
Proof.
  intros Hq Hc. unfold Str.trimEnd.
  rewrite rev_app_distr. simpl. rewrite <- app_assoc. simpl.
  rewrite trimStart_lead by (try apply Forall_rev; assumption).
  simpl. rewrite rev_involutive. reflexivity.
Qed.

(** The parenthesis test holds exactly of the strings that are, once
    trimmed, an opening parenthesis, a text without line terminator and a
    closing parenthesis. *)
Lemma parenRe_spec str :
  testAnchored parenRe str = true <->
  exists mid,
    Str.trim str = 40%N :: mid ++ [41%N]
    /\ (forall c, In c mid -> Char.isLineTerminator c = false).
Proof.
  split.
  - unfold testAnchored.
    destruct (matchHere parenRe str) as [n|] eqn:Hn; [|discriminate].
    intros _. apply matchHere_sound in Hn. destruct Hn as [_ Hacc].
    assert (Hstr : str = firstn n str ++ skipn n str)
      by (symmetry; apply firstn_skipn).
    revert Hstr Hacc. generalize (firstn n str) (skipn n str).
    intros p rest Hstr H. unfold parenRe in H.
    inversion H as [| |cls1 r1 q1 p1 rest1 Hq1 H1|]; subst; clear H.
    inversion H1 as [|cls2 r2 c2 p2 rest2 Hc2 H2| |]; subst; clear H1.
    inversion H2 as [| |cls3 r3 q3 p3 rest3 Hq3 H3|]; subst; clear H2.
    inversion H3 as [|cls4 r4 c4 p4 rest4 Hc4 H4| |]; subst; clear H3.
    inversion H4 as [| |cls5 r5 q5 p5 rest5 Hq5 H5|]; subst; clear H4.
    inversion H5 as [| | |r6 H6]; subst; clear H5.
    apply N.eqb_eq in Hc2, Hc4. subst c2 c4.
    exists q3. split.
    + rewrite !app_nil_r. unfold Str.trim.
      rewrite trimStart_lead by (reflexivity || assumption).
      change (40%N :: q3 ++ 41%N :: q5) with ((40%N :: q3) ++ 41%N :: q5).
      rewrite trimEnd_trail by (reflexivity || assumption). reflexivity.
    + intros c Hc. rewrite Forall_forall in Hq3. specialize (Hq3 c Hc).
      unfold Char.isAny in Hq3. apply negb_true_iff. exact Hq3.
  - intros (mid & Htrim & Hmid). eapply parenRe_accepts; eassumption.
Qed.

(** ** The decimal examples are the nearest numbers *)

(** The numbers written 1234.56 and 1234.567 above lie within half a unit
    in the last place of these decimals. *)
Lemma decimal_examples_nearest :
  Num.ofDecimal false 123456 2 = S754_finite false 5429652300748554 (-42)
  /\ (2 * Z.abs (100 * 5429652300748554 - 123456 * 2 ^ 42) <= 100)%Z
  /\ Num.ofDecimal false 1234567 3 = S754_finite false 5429683087074132 (-42)
  /\ (2 * Z.abs (1000 * 5429683087074132 - 1234567 * 2 ^ 42) <= 1000)%Z.
Proof.
  repeat split; try (vm_compute; reflexivity); vm_compute; discriminate.
Qed.

(** * Further properties of the script *)

(** ** The working string is a filter of the input *)

Lemma filter_filter_and {A} (f g : A -> bool) l :
  filter f (filter g l) = filter (fun x => g x && f x) l.
Proof.
  induction l as [|a l IH]; simpl; [reflexivity|].
  destruct (g a); simpl; [destruct (f a)|]; rewrite IH; reflexivity.
Qed.

Lemma filter_white_pad (f : codeUnit -> bool) lead x trail :
  (forall c, f c = true -> Char.isWhiteSpace c = false) ->
  Forall (fun c => Char.isWhiteSpace c = true) lead ->
  Forall (fun c => Char.isWhiteSpace c = true) trail ->
  filter f (lead ++ x ++ trail) = filter f x.
Proof.
  intros Hf Hlead Htrail.
  assert (Hnone : forall q, Forall (fun c => Char.isWhiteSpace c = true) q ->
                            filter f q = []).
  { intros q Hq. apply filter_none. intros c Hc.
    rewrite Forall_forall in Hq. specialize (Hq c Hc).
    destruct (f c) eqn:Hfc; [|reflexivity].
    apply Hf in Hfc. congruence. }
  rewrite !filter_app, (Hnone lead Hlead), (Hnone trail Htrail).
  simpl. apply app_nil_r.
Qed.

Lemma filter_trim (f : codeUnit -> bool) s :
  (forall c, f c = true -> Char.isWhiteSpace c = false) ->
  filter f (Str.trim s) = filter f s.
Proof.
  intros Hf. destruct (trim_split s) as (lead & trail & Hs & Hlead & Htrail).
  rewrite Hs at 2. symmetry. apply filter_white_pad; assumption.
Qed.

Lemma isKept_spec c :
  isKept c =
  negb (negb (Char.isNumberChar c)) && negb (Char.isParen c)
  && negb (Char.isWhiteSpace c).
Proof.
  unfold isKept, isPayload, Char.isNumberChar.
  destruct (Char.isDigit c) eqn:Hd.
  { rewrite (digit_not_paren c Hd), (digit_not_white c Hd). reflexivity. }
  destruct (Char.isDot c) eqn:Hdot.
  { rewrite (dot_not_paren c Hdot), (dot_not_white c Hdot). reflexivity. }
  destruct (Char.isMinus c) eqn:Hm.
  { assert (Char.isParen c = false) as -> by (revert Hm; clear; char_solve).
    assert (Char.isWhiteSpace c = false) as ->
        by (revert Hm; clear; char_solve).
    reflexivity. }
  destruct (Char.isComma c) eqn:Hc.
  { assert (Char.isParen c = false) as -> by (revert Hc; clear; char_solve).
    assert (Char.isWhiteSpace c = false) as ->
        by (revert Hc; clear; char_solve).
    reflexivity. }
  simpl. destruct (Char.isParen c), (Char.isWhiteSpace c); reflexivity.
Qed.

Lemma isKept_not_white c : isKept c = true -> Char.isWhiteSpace c = false.
Proof.
  rewrite isKept_spec. intros H.
  apply andb_true_iff in H. destruct H as [_ H].
  apply negb_true_iff in H. exact H.
Qed.

(** The working string holds the digits, dots, minus signs and commas of
    the input, in their order. *)
Lemma working_filter s : working s = filter isKept s.
Proof.
  unfold working, Str.deleteAll. rewrite !filter_filter_and.
  rewrite <- (filter_trim isKept s isKept_not_white).
  apply filter_ext. intros c. rewrite isKept_spec, andb_assoc. reflexivity.
Qed.

Lemma deleteAll_comma_kept s :
  Str.deleteAll Char.isComma (filter isKept s) = filter isPayload s.
Proof.
  unfold Str.deleteAll. rewrite filter_filter_and. apply filter_ext.
  intros c. unfold isKept.
  destruct (isPayload c) eqn:Hp; simpl.
  - unfold isPayload in Hp.
    assert (Char.isComma c = false) as ->; [|reflexivity].
    revert Hp. clear. char_solve.
  - destruct (Char.isComma c); reflexivity.
Qed.

Lemma deleteAll_idem cls s :
  Str.deleteAll cls (Str.deleteAll cls s) = Str.deleteAll cls s.
Proof.
  unfold Str.deleteAll. rewrite filter_filter_and. apply filter_ext.
  intros c. destruct (cls c); reflexivity.
Qed.

Lemma separators_commas w :
  separators (Str.deleteAll Char.isComma w) = separators w.
Proof.
  unfold separators.
  rewrite (countAll_deleteAll Char.isDot Char.isComma dot_not_comma).
  rewrite deleteAll_idem. reflexivity.
Qed.

(** What [Number] is called on depends on the payload of the input
    alone. *)
Lemma separators_working s :
  separators (working s) = separators (filter isPayload s).
Proof.
  rewrite working_filter, <- separators_commas, deleteAll_comma_kept.
  reflexivity.
Qed.

(** ** The parenthesis test sees the trimmed string *)

Lemma trimStart_white q :
  Forall (fun c => Char.isWhiteSpace c = true) q -> Str.trimStart q = [].
Proof.
  induction 1 as [|c q Hc _ IH]; simpl; [reflexivity|].
  rewrite Hc. exact IH.
Qed.

Lemma trimStart_app_white lead x :
  Forall (fun c => Char.isWhiteSpace c = true) lead ->
  Str.trimStart (lead ++ x) = Str.trimStart x.
Proof.
  induction 1 as [|c q Hc _ IH]; simpl; [reflexivity|].
  rewrite Hc. exact IH.
Qed.

Lemma trimEnd_app_white x trail :
  Forall (fun c => Char.isWhiteSpace c = true) trail ->
  Str.trimEnd (x ++ trail) = Str.trimEnd x.
Proof.
  intros H. unfold Str.trimEnd. rewrite rev_app_distr.
  rewrite trimStart_app_white by (apply Forall_rev; exact H). reflexivity.
Qed.

Lemma trimEnd_nil_white x :
  Str.trimStart x = [] -> Forall (fun c => Char.isWhiteSpace c = true) x.
Proof.
  induction x as [|c x IH]; simpl; intros H; [constructor|].
  destruct (Char.isWhiteSpace c) eqn:Hc; [|discriminate].
  constructor; [exact Hc | apply IH; exact H].
Qed.

Lemma trimStart_app_trail x trail :
  Forall (fun c => Char.isWhiteSpace c = true) trail ->
  Str.trimEnd (Str.trimStart (x ++ trail)) = Str.trimEnd (Str.trimStart x).
Proof.
  intros H. induction x as [|c x IH]; simpl.
  - rewrite (trimStart_white trail H). reflexivity.
  - destruct (Char.isWhiteSpace c); [exact IH|].
    change (c :: x ++ trail) with ((c :: x) ++ trail).
    apply trimEnd_app_white. exact H.
Qed.

(** White space around a string does not change what [trim] gives. *)
Lemma trim_pad lead x trail :
  Forall (fun c => Char.isWhiteSpace c = true) lead ->
  Forall (fun c => Char.isWhiteSpace c = true) trail ->
  Str.trim (lead ++ x ++ trail) = Str.trim x.
Proof.
  intros Hlead Htrail. unfold Str.trim.
  rewrite trimStart_app_white by exact Hlead.
  apply trimStart_app_trail. exact Htrail.
Qed.

Lemma trim_nil_white s :
  Str.trim s = [] -> Forall (fun c => Char.isWhiteSpace c = true) s.
Proof.
  intros H. destruct (trim_split s) as (lead & trail & Hs & Hlead & Htrail).
  rewrite H in Hs. rewrite Hs. simpl. apply Forall_app. split; assumption.
Qed.

Lemma testAnchored_trim a b :
  Str.trim a = Str.trim b ->
  testAnchored parenRe a = testAnchored parenRe b.
Proof.
  intros H.
  destruct (testAnchored parenRe a) eqn:Ha, (testAnchored parenRe b) eqn:Hb;
    try reflexivity.
  - apply parenRe_spec in Ha. rewrite H in Ha. apply parenRe_spec in Ha.
    congruence.
  - apply parenRe_spec in Hb. rewrite <- H in Hb. apply parenRe_spec in Hb.
    congruence.
Qed.

Lemma numberChar_white c :
  Char.isWhiteSpace c = true -> negb (negb (Char.isNumberChar c)) = true.
Proof.
  intros H. unfold Char.isNumberChar. rewrite H, !orb_true_r. reflexivity.
Qed.

(** The stripped string, trimmed, is the input stripped, trimmed. *)
Lemma trim_stripped s :
  Str.trim (stripped s)
  = Str.trim (filter (fun c => negb (negb (Char.isNumberChar c))) s).
Proof.
  destruct (trim_split s) as (lead & trail & Hs & Hlead & Htrail).
  assert (Hkeep : forall q, Forall (fun c => Char.isWhiteSpace c = true) q ->
            filter (fun c => negb (negb (Char.isNumberChar c))) q = q).
  { intros q Hq. apply filter_all. intros c Hc.
    rewrite Forall_forall in Hq. apply numberChar_white, Hq, Hc. }
  rewrite Hs at 2.
  rewrite !filter_app, (Hkeep lead Hlead), (Hkeep trail Htrail).
  rewrite trim_pad by assumption. reflexivity.
Qed.

(** The result of [parseNumberFromString] on a string that is not empty
    once trimmed depends on two things alone: the parenthesis test, and the
    digits, dots and minus signs of the string. *)
Lemma parse_congruence s s' :
  Str.trim s <> [] -> Str.trim s' <> [] ->
  filter isPayload s = filter isPayload s' ->
  testAnchored parenRe (stripped s) = testAnchored parenRe (stripped s') ->
  parseNumberFromString (JString s) = parseNumberFromString (JString s').
Proof.
  intros Hs Hs' Hp Ht.
  rewrite !parseNumberFromString_unfold by assumption.
  rewrite !separators_working, Hp, Ht. reflexivity.
Qed.

Lemma no_lparen_test s :
  (forall c, In c s -> Char.isLParen c = false) ->
  testAnchored parenRe (stripped s) = false.
Proof.
  intros H. unfold testAnchored.
  rewrite (matchHere_needs Char.isLParen parenRe); [reflexivity| |].
  - simpl. auto.
  - intros c Hc. unfold stripped in Hc. apply In_deleteAll in Hc.
    apply H, In_trim. tauto.
Qed.

(** ** What the result never is, and what it does not depend on *)

Lemma negAbs_not_NaN v : Num.isNaN v = false -> Num.isNaN (Num.negAbs v) = false.
Proof. destruct v; simpl; auto. Qed.

(** X1: [parseNumberFromString] never returns [NaN]: its result is [null]
    or a number. *)
Theorem parse_never_NaN (s : jsvalue) (v : number) :
  parseNumberFromString s = Some v -> Num.isNaN v = false.
Proof.
  destruct s as [| |s]; try discriminate.
  rewrite parseNumberFromString_steps.
  destruct (Str.trim s); [discriminate|]. cbv zeta.
  rewrite retry_same_string.
  destruct (Num.isNaN (Number (separators (working s)))) eqn:Hnan;
    [discriminate|].
  intros H. injection H as <-.
  destruct (testAnchored parenRe (stripped s)); [|exact Hnan].
  apply negAbs_not_NaN. exact Hnan.
Qed.

Lemma parse_never_NaN_witness :
  Num.isNaN (Num.ofDecimal true 12345 1) = false.
Proof.
  apply (parse_never_NaN (JString (lit " USD (-1,234.5) "))).
  vm_compute. reflexivity.
Defined.

(** X2: an input that is not empty once trimmed and holds no digit, no dot
    and no minus sign (letters, currency signs, commas, parentheses) is not
    rejected: the empty string is parsed, and the result is 0, or -0 when
    the parenthesis test holds. *)
Theorem parse_no_payload_is_zero (s : jsstring) :
  Str.trim s <> [] ->
  (forall c, In c s -> isPayload c = false) ->
  parseNumberFromString (JString s)
  = Some (S754_zero (testAnchored parenRe (stripped s))).
Proof.
  intros Hne Hs. rewrite parseNumberFromString_unfold by exact Hne.
  rewrite separators_working, (filter_none isPayload s Hs).
  cbv zeta. change (Number (separators [])) with Num.zero. simpl.
  destruct (testAnchored parenRe (stripped s)); reflexivity.
Qed.

Lemma parse_no_payload_is_zero_witness :
  parseNumberFromString (JString (lit "N/A")) = Some Num.zero
  /\ parseNumberFromString (JString (lit "(n/a)")) = Some (S754_zero true).
Proof.
  split.
  - rewrite (parse_no_payload_is_zero (lit "N/A")).
    + vm_compute. reflexivity.
    + vm_compute. discriminate.
    + intros c Hc. simpl in Hc.
      repeat (destruct Hc as [<-|Hc]; [reflexivity|]). destruct Hc.
  - rewrite (parse_no_payload_is_zero (lit "(n/a)")).
    + vm_compute. reflexivity.
    + vm_compute. discriminate.
    + intros c Hc. simpl in Hc.
      repeat (destruct Hc as [<-|Hc]; [reflexivity|]). destruct Hc.
Defined.

(** X3: the code units outside [[\d.\-,()\s]] (currency signs, letters,
    units) do not count: deleting any of them from the input leaves the
    result as it is, as long as something is left of the input. *)
Theorem parse_ignores_other_characters (cls : codeUnit -> bool) (s : jsstring) :
  (forall c, cls c = true -> Char.isNumberChar c = false) ->
  Str.trim (Str.deleteAll cls s) <> [] ->
  parseNumberFromString (JString (Str.deleteAll cls s))
  = parseNumberFromString (JString s).
Proof.
  intros Hcls Hne.
  assert (Hfilter : forall f,
            (forall c, f c = true -> Char.isNumberChar c = true) ->
            filter f (Str.deleteAll cls s) = filter f s).
  { intros f Hf. unfold Str.deleteAll. apply filter_filter_keep.
    intros c Hc. apply negb_true_iff.
    destruct (cls c) eqn:Hc'; [|reflexivity].
    apply Hcls in Hc'. apply Hf in Hc. congruence. }
  apply parse_congruence.
  - exact Hne.
  - intros Hnil. apply Hne. apply trim_nil_white in Hnil.
    unfold Str.trim. rewrite trimStart_white; [reflexivity|].
    apply Forall_forall. intros c Hc. apply In_deleteAll in Hc.
    rewrite Forall_forall in Hnil. apply Hnil. tauto.
  - apply Hfilter. intros c Hc. unfold isPayload in Hc.
    unfold Char.isNumberChar.
    destruct (Char.isDigit c), (Char.isDot c), (Char.isMinus c);
      try reflexivity; discriminate.
  - apply testAnchored_trim. rewrite !trim_stripped. f_equal.
    apply Hfilter. intros c Hc. apply negb_true_iff in Hc.
    apply negb_false_iff in Hc. exact Hc.
Qed.

Lemma parse_ignores_other_characters_witness :
  parseNumberFromString (JString (lit " 1,234.5 "))
  = parseNumberFromString (JString (lit "US$ 1,234.5 net")).
Proof.
  change (lit " 1,234.5 ")
    with (Str.deleteAll (fun c => negb (Char.isNumberChar c))
            (lit "US$ 1,234.5 net")).
  apply parse_ignores_other_characters.
  - intros c Hc. apply negb_true_iff in Hc. exact Hc.
  - vm_compute. discriminate.
Defined.

(** X4: in an input without an opening parenthesis, white space and commas
    do not count wherever they stand: deleting them all leaves the result
    as it is, as long as something is left of the input. *)
Theorem parse_ignores_spaces_and_commas (s : jsstring) :
  (forall c, In c s -> Char.isLParen c = false) ->
  Str.trim (Str.deleteAll (fun c => Char.isWhiteSpace c || Char.isComma c) s)
  <> [] ->
  parseNumberFromString
    (JString (Str.deleteAll (fun c => Char.isWhiteSpace c || Char.isComma c) s))
  = parseNumberFromString (JString s).
Proof.
  intros Hparen Hne.
  set (s' := Str.deleteAll (fun c => Char.isWhiteSpace c || Char.isComma c) s)
    in *.
  assert (Hsub : forall c, In c s' -> In c s)
    by (intros c Hc; apply In_deleteAll in Hc; tauto).
  apply parse_congruence.
  - exact Hne.
  - intros Hnil. apply Hne. apply trim_nil_white in Hnil.
    unfold Str.trim. rewrite trimStart_white; [reflexivity|].
    apply Forall_forall. intros c Hc.
    rewrite Forall_forall in Hnil. apply Hnil, Hsub, Hc.
  - unfold s', Str.deleteAll. apply filter_filter_keep.
    intros c Hc. apply negb_true_iff. unfold isPayload in Hc.
    revert Hc. clear. char_solve.
  - rewrite !no_lparen_test; [reflexivity|exact Hparen|].
    intros c Hc. apply Hparen, Hsub, Hc.
Qed.

Lemma parse_ignores_spaces_and_commas_witness :
  parseNumberFromString (JString (lit "-1234567.5"))
  = parseNumberFromString (JString (lit " - 1 234,567.5 ")).
Proof.
  change (lit "-1234567.5")
    with (Str.deleteAll (fun c => Char.isWhiteSpace c || Char.isComma c)
            (lit " - 1 234,567.5 ")).
  apply parse_ignores_spaces_and_commas.
  - intros c Hc. simpl in Hc.
    repeat (destruct Hc as [<-|Hc]; [reflexivity|]). destruct Hc.
  - vm_compute. discriminate.
Defined.

(** ** Numeric literals *)

Lemma takeDigits_spec s :
  let (ds, r) := Num.takeDigits s in
  s = ds ++ r
  /\ (forall c, In c ds -> Char.isDigit c = true)
  /\ match r with
     | [] => True
     | c :: _ => Char.isDigit c = false
     end.
Proof.
  induction s as [|c s IH]; simpl; [auto|].
  destruct (Char.isDigit c) eqn:Hc.
  - destruct (Num.takeDigits s) as [ds r]. destruct IH as (-> & Hds & Hr).
    split; [reflexivity|]. split; [|exact Hr].
    intros x [<-|Hx]; [exact Hc | apply Hds, Hx].
  - split; [reflexivity|]. split; [intros x []|exact Hc].
Qed.

Lemma takeDigits_app ip r :
  (forall c, In c ip -> Char.isDigit c = true) ->
  match r with
  | [] => True
  | c :: _ => Char.isDigit c = false
  end ->
  Num.takeDigits (ip ++ r) = (ip, r).
Proof.
  intros Hip Hr. induction ip as [|c ip IH]; simpl.
  - destruct r as [|c r]; [reflexivity|]. simpl. rewrite Hr. reflexivity.
  - rewrite (Hip c) by (left; reflexivity).
    rewrite IH; [reflexivity|]. intros x Hx. apply Hip. right. exact Hx.
Qed.

(** A literal that is read is made of digits and at most one dot. *)
Lemma unsignedDecimal_chars u m k :
  Num.unsignedDecimal u = Some (m, k) ->
  forall c, In c u -> Char.isDigit c = true \/ Char.isDot c = true.
Proof.
  unfold Num.unsignedDecimal. pose proof (takeDigits_spec u) as Hu.
  destruct (Num.takeDigits u) as [ip r]. destruct Hu as (-> & Hip & _).
  destruct r as [|d r'].
  - intros _ c Hc. rewrite app_nil_r in Hc. left. apply Hip, Hc.
  - destruct (Char.isDot d) eqn:Hd; [|discriminate].
    pose proof (takeDigits_spec r') as Hr.
    destruct (Num.takeDigits r') as [fp r'']. destruct Hr as (-> & Hfp & _).
    destruct r''; [|destruct (ip ++ fp); discriminate].
    intros _ c Hc. rewrite app_nil_r in Hc.
    apply in_app_or in Hc. destruct Hc as [Hc|[<-|Hc]]; auto.
Qed.

(** Digits, a dot, digits: a literal, when there is a digit at all. *)
Lemma unsignedDecimal_decimal ip fp :
  (forall c, In c ip -> Char.isDigit c = true) ->
  (forall c, In c fp -> Char.isDigit c = true) ->
  ip ++ fp <> [] ->
  Num.unsignedDecimal (ip ++ 46%N :: fp)
  = Some (Num.digitsValue (ip ++ fp), length fp).
Proof.
  intros Hip Hfp Hne. unfold Num.unsignedDecimal.
  rewrite takeDigits_app by (try exact Hip; reflexivity).
  simpl. rewrite takeDigits_all by exact Hfp.
  destruct (ip ++ fp); [congruence | reflexivity].
Qed.

Section Sign.

Lemma binary_round_aux_sign sx mx ex lx :
  (0 <= mx)%Z ->
  Num.signBit (binary_round_aux Num.prec Num.emax sx mx ex lx) = sx.
Proof.
  intros H. unfold binary_round_aux.
  pose proof (shr_fexp_nonneg mx ex lx H) as H1.
  destruct (shr_fexp Num.prec Num.emax mx ex lx) as [mrs' e'].
  simpl in H1.
  pose proof (shr_fexp_nonneg _ e' loc_Exact
                (round_nearest_even_nonneg _ (loc_of_shr_record mrs') H1))
    as H2.
  destruct (shr_fexp Num.prec Num.emax _ e' loc_Exact) as [mrs'' e''].
  simpl in H2.
  destruct (shr_m mrs'') as [|m|m]; [reflexivity| |lia].
  destruct (e'' <=? Num.emax - Num.prec)%Z; reflexivity.
Qed.

(** The number value of a decimal has the sign it is written with. *)
Lemma ofDecimal_sign neg m k : Num.signBit (Num.ofDecimal neg m k) = neg.
Proof.
  unfold Num.ofDecimal. destruct m as [|p]; [reflexivity|].
  unfold SFdiv, SFdiv_core_binary.
  set (q := Z.to_pos (10 ^ Z.of_nat k)).
  set (m' := match (_ - _ - _)%Z with
             | Z0 => Zpos p
             | Zpos _ => Z.shiftl (Zpos p) _
             | Zneg _ => 0%Z
             end).
  assert (Hm' : (0 <= m')%Z).
  { unfold m'. destruct (_ - _ - _)%Z; try lia.
    apply Z.shiftl_nonneg. lia. }
  pose proof (Z_div_mod m' (Zpos q) eq_refl) as Hdiv.
  destruct (Z.div_eucl m' (Zpos q)) as [mz r].
  rewrite binary_round_aux_sign by nia. apply xorb_false_r.
Qed.

End Sign.

(** What [Number] gives on a string without white space, when it is not
    [NaN]: the sign is that of a leading minus sign, and no other minus
    sign stands in the string. *)
Lemma Number_read str :
  (forall c, In c str -> Char.isWhiteSpace c = false) ->
  Num.isNaN (Number str) = false ->
  Num.signBit (Number str) = startsWithMinus str
  /\ Str.countAll Char.isMinus str = (if startsWithMinus str then 1 else 0).
Proof.
  intros Hw. unfold Number. rewrite (trim_id str Hw).
  destruct str as [|c r]; [auto|]. cbv zeta. simpl startsWithMinus.
  assert (Hnone : forall u m k, Num.unsignedDecimal u = Some (m, k) ->
                                Str.countAll Char.isMinus u = 0).
  { intros u m k Hu. unfold Str.countAll. rewrite filter_none; [reflexivity|].
    intros x Hx. destruct (unsignedDecimal_chars u m k Hu x Hx) as [H|H];
      revert H; clear; char_solve. }
  destruct (Char.isMinus c) eqn:Hm.
  - destruct (Num.unsignedDecimal r) as [[m k]|] eqn:Hu; [|discriminate].
    intros _. split; [apply ofDecimal_sign|].
    change (c :: r) with ([c] ++ r). rewrite countAll_app, (Hnone r m k Hu).
    unfold Str.countAll. simpl. rewrite Hm. reflexivity.
  - destruct (Char.isPlus c) eqn:Hp.
    + destruct (Num.unsignedDecimal r) as [[m k]|] eqn:Hu; [|discriminate].
      intros _. split; [apply ofDecimal_sign|].
      change (c :: r) with ([c] ++ r). rewrite countAll_app, (Hnone r m k Hu).
      unfold Str.countAll. simpl. rewrite Hm. reflexivity.
    + destruct (Num.unsignedDecimal (c :: r)) as [[m k]|] eqn:Hu;
        [|discriminate].
      intros _. split; [apply ofDecimal_sign | exact (Hnone _ m k Hu)].
Qed.

Lemma countAll_dropInnerDots cls s :
  (forall c, cls c = true -> Char.isDot c = false) ->
  Str.countAll cls (dropInnerDots s) = Str.countAll cls s.
Proof.
  intros Hcls. unfold Str.countAll.
  induction s as [|c s IH]; simpl; [reflexivity|].
  destruct (cls c) eqn:Hc.
  - rewrite (Hcls c Hc). simpl. rewrite Hc. simpl. rewrite IH. reflexivity.
  - destruct (Char.isDot c && existsb Char.isDot s); simpl;
      rewrite ?Hc; exact IH.
Qed.

Lemma separators_dropInnerDots w :
  separators w =
  if Str.countAll Char.isDot w <=? 1 then Str.deleteAll Char.isComma w
  else dropInnerDots (Str.deleteAll Char.isComma w).
Proof.
  destruct (Str.countAll Char.isDot w <=? 1) eqn:H.
  - unfold separators. rewrite H. reflexivity.
  - apply separators_several_dots. apply Nat.leb_gt in H. exact H.
Qed.

(** The decimal/thousands step keeps every code unit that is neither a dot
    nor a comma. *)
Lemma countAll_separators cls w :
  (forall c, cls c = true -> Char.isDot c = false) ->
  (forall c, cls c = true -> Char.isComma c = false) ->
  Str.countAll cls (separators w) = Str.countAll cls w.
Proof.
  intros Hdot Hcomma. rewrite separators_dropInnerDots.
  destruct (Str.countAll Char.isDot w <=? 1).
  - apply countAll_deleteAll. exact Hcomma.
  - rewrite countAll_dropInnerDots by exact Hdot.
    apply countAll_deleteAll. exact Hcomma.
Qed.

Lemma countAll_working cls s :
  (forall c, cls c = true -> isKept c = true) ->
  Str.countAll cls (working s) = Str.countAll cls s.
Proof.
  intros H. rewrite working_filter. unfold Str.countAll.
  rewrite filter_filter_keep by exact H. reflexivity.
Qed.

Lemma separators_working_no_white s c :
  In c (separators (working s)) -> Char.isWhiteSpace c = false.
Proof. intros H. apply In_separators, In_working in H. tauto. Qed.

(** ** Signs *)

(** X5: a result is returned only for an input with at most one minus
    sign: two minus signs anywhere in the input (["--5"], ["1-2-3"],
    ["-(-5)"]) give [null]. *)
Theorem parse_at_most_one_minus (s : jsstring) (v : number) :
  parseNumberFromString (JString s) = Some v ->
  Str.countAll Char.isMinus s <= 1.
Proof.
  intros H.
  assert (Hne : Str.trim s <> []).
  { intros Hnil. unfold parseNumberFromString in H. rewrite Hnil in H.
    discriminate. }
  rewrite parseNumberFromString_unfold in H by exact Hne. cbv zeta in H.
  destruct (Num.isNaN (Number (separators (working s)))) eqn:Hnan;
    [discriminate|].
  destruct (Number_read _ (separators_working_no_white s) Hnan) as [_ Hc].
  rewrite countAll_separators, countAll_working in Hc.
  - rewrite Hc. destruct (startsWithMinus _); lia.
  - intros c Hm. unfold isKept, isPayload. rewrite Hm, !orb_true_r.
    reflexivity.
  - clear. char_solve.
  - clear. char_solve.
Qed.

Lemma parse_at_most_one_minus_witness :
  Str.countAll Char.isMinus (lit "(-1,234.5)") <= 1.
Proof.
  apply (parse_at_most_one_minus (lit "(-1,234.5)")
           (Num.ofDecimal true 12345 1)).
  vm_compute. reflexivity.
Defined.

(** X6: the sign of a result: its sign bit is set exactly when the
    parenthesis test holds or the string handed to [Number] starts with a
    minus sign. *)
Theorem parse_sign (s : jsstring) (v : number) :
  parseNumberFromString (JString s) = Some v ->
  Num.signBit v
  = testAnchored parenRe (stripped s)
    || startsWithMinus (separators (working s)).
Proof.
  intros H.
  assert (Hne : Str.trim s <> []).
  { intros Hnil. unfold parseNumberFromString in H. rewrite Hnil in H.
    discriminate. }
  rewrite parseNumberFromString_unfold in H by exact Hne. cbv zeta in H.
  destruct (Num.isNaN (Number (separators (working s)))) eqn:Hnan;
    [discriminate|].
  injection H as <-.
  destruct (testAnchored parenRe (stripped s)); simpl.
  - apply negAbs_signBit. exact Hnan.
  - apply (Number_read _ (separators_working_no_white s) Hnan).
Qed.

Lemma parse_sign_witness :
  Num.signBit (Num.ofDecimal true 53 1)
  = testAnchored parenRe (stripped (lit ".-5.3"))
    || startsWithMinus (separators (working (lit ".-5.3"))).
Proof.
  apply (parse_sign (lit ".-5.3")). vm_compute. reflexivity.
Defined.

(** ** Plain decimal numerals *)

(** X7: a numeral written as digits, a dot and digits, with or without a
    minus sign before it, is read as the decimal it writes: the number
    value of the integer made of all its digits, divided by ten to the
    number of digits after the dot. *)
Theorem parse_plain_decimal (neg : bool) (ip fp : jsstring) :
  (forall c, In c ip -> Char.isDigit c = true) ->
  (forall c, In c fp -> Char.isDigit c = true) ->
  ip ++ fp <> [] ->
  parseNumberFromString
    (JString ((if neg then [45%N] else []) ++ ip ++ 46%N :: fp))
  = Some (Num.ofDecimal neg (Num.digitsValue (ip ++ fp)) (length fp)).
Proof.
  intros Hip Hfp Hne.
  set (u := ip ++ 46%N :: fp).
  set (t := (if neg then [45%N] else []) ++ u).
  assert (Hu : forall c, In c u -> Char.isDigit c = true \/ Char.isDot c = true).
  { intros c Hc. apply in_app_or in Hc.
    destruct Hc as [Hc|[<-|Hc]]; auto. }
  assert (Ht : forall c, In c t -> isPayload c = true).
  { intros c Hc. apply in_app_or in Hc. destruct Hc as [Hc|Hc].
    - destruct neg; [|destruct Hc]. destruct Hc as [<-|[]]. reflexivity.
    - unfold isPayload. destruct (Hu c Hc) as [-> | ->];
        rewrite ?orb_true_r; reflexivity. }
  assert (Hwhite : forall c, In c t -> Char.isWhiteSpace c = false).
  { intros c Hc. apply Ht in Hc. unfold isPayload in Hc.
    revert Hc. clear. char_solve. }
  assert (Htrim : Str.trim t = t) by (apply trim_id; exact Hwhite).
  assert (Hnil : t <> []).
  { unfold t, u. intros H. apply app_eq_nil in H. destruct H as [_ H].
    apply app_eq_nil in H. destruct H as [_ H]. discriminate. }
  assert (Hdots : Str.countAll Char.isDot t = 1).
  { unfold t, u. rewrite !countAll_app.
    assert (Hd : forall q, (forall c, In c q -> Char.isDigit c = true) ->
                           Str.countAll Char.isDot q = 0).
    { intros q Hq. unfold Str.countAll. rewrite filter_none; [reflexivity|].
      intros c Hc. apply digit_not_dot, Hq, Hc. }
    change (46%N :: fp) with ([46%N] ++ fp).
    rewrite countAll_app, (Hd ip Hip), (Hd fp Hfp).
    destruct neg; reflexivity. }
  assert (Hsep : separators (working t) = t).
  { rewrite separators_working, (filter_all isPayload t Ht).
    unfold separators. rewrite Hdots. simpl. apply filter_all.
    intros c Hc. apply Ht in Hc. apply negb_true_iff.
    unfold isPayload in Hc. revert Hc. clear. char_solve. }
  assert (Hnum : Number t
                 = Num.ofDecimal neg (Num.digitsValue (ip ++ fp)) (length fp)).
  { unfold Number. rewrite Htrim. unfold t.
    pose proof (unsignedDecimal_decimal ip fp Hip Hfp Hne) as Hlit.
    fold u in Hlit. destruct neg; simpl.
    - rewrite Hlit. reflexivity.
    - destruct u as [|c r] eqn:Hcr.
      { unfold u in Hcr. apply app_eq_nil in Hcr. destruct Hcr; discriminate. }
      assert (Hc : Char.isDigit c = true \/ Char.isDot c = true)
        by (apply Hu; left; reflexivity).
      assert (Char.isMinus c = false) as ->
          by (destruct Hc as [Hc|Hc]; revert Hc; clear; char_solve).
      assert (Char.isPlus c = false) as ->
          by (destruct Hc as [Hc|Hc]; revert Hc; clear; char_solve).
      rewrite Hlit. reflexivity. }
  rewrite parseNumberFromString_unfold by (rewrite Htrim; exact Hnil).
  cbv zeta. rewrite Hsep, Hnum, ofDecimal_not_NaN, no_lparen_test.
  - reflexivity.
  - intros c Hc. apply Ht in Hc. unfold isPayload in Hc.
    revert Hc. clear. char_solve.
Qed.

Lemma parse_plain_decimal_witness :
  parseNumberFromString (JString (lit "-0.125"))
  = Some (Num.ofDecimal true 125 3).
Proof.
  apply (parse_plain_decimal true (lit "0") (lit "125")).
  - intros c [<-|[]]. reflexivity.
  - intros c Hc. simpl in Hc.
    repeat (destruct Hc as [<-|Hc]; [reflexivity|]). destruct Hc.
  - discriminate.
Defined.

(** ** Tokens *)

Lemma tokenRe_accepts_inv p rest :
  accepts tokenRe p rest ->
  exists marks spaces d1 body d2,
    p = marks ++ spaces ++ d1 :: body ++ [d2]
    /\ Forall (fun c => Char.isSignOrParen c = true) marks
    /\ Forall (fun c => Char.isWhiteSpace c = true) spaces
    /\ Char.isDigit d1 = true
    /\ Forall (fun c => Char.isTokenBody c = true) body
    /\ Char.isDigit d2 = true.
Proof.
  unfold tokenRe. intros H.
  inversion H as [| |cls1 r1 marks p1 rest1 Hm H1|]; subst; clear H.
  inversion H1 as [| |cls2 r2 spaces p2 rest2 Hs H2|]; subst; clear H1.
  inversion H2 as [|cls3 r3 d1 p3 rest3 Hd1 H3| |]; subst; clear H2.
  inversion H3 as [| |cls4 r4 body p4 rest4 Hb H4|]; subst; clear H3.
  inversion H4 as [|cls5 r5 d2 p5 rest5 Hd2 H5| |]; subst; clear H4.
  inversion H5; subst; clear H5.
  exists marks, spaces, d1, body, d2. auto 10.
Qed.

Lemma token_parts s tokens t :
  matchAll tokenRe s = Some tokens -> In t tokens ->
  exists marks spaces d1 body d2,
    t = marks ++ spaces ++ d1 :: body ++ [d2]
    /\ Forall (fun c => Char.isSignOrParen c = true) marks
    /\ Forall (fun c => Char.isWhiteSpace c = true) spaces
    /\ Char.isDigit d1 = true
    /\ Forall (fun c => Char.isTokenBody c = true) body
    /\ Char.isDigit d2 = true.
Proof.
  unfold matchAll. intros Hm Ht.
  assert (Hin : In t (scan tokenRe s 0)).
  { destruct (scan tokenRe s 0); [discriminate|].
    injection Hm as <-. exact Ht. }
  apply scan_In in Hin. destruct Hin as (s' & n & Hn & ->).
  apply matchHere_sound in Hn. destruct Hn as [_ Hacc].
  eapply tokenRe_accepts_inv. exact Hacc.
Qed.

(** X8: the shape of every token that the extraction gives: marks among
    [-], [(] and [)], then white space, then a digit, then a body of
    digits, dots, commas, parentheses and white space, then a digit.  So a
    token holds two digits at least, and ends with a digit. *)
Theorem token_shape_and_alphabet (s : jsstring) (tokens : list jsstring)
    (t : jsstring) :
  matchAll tokenRe s = Some tokens -> In t tokens ->
  (exists marks spaces d1 body d2,
     t = marks ++ spaces ++ d1 :: body ++ [d2]
     /\ Forall (fun c => Char.isSignOrParen c = true) marks
     /\ Forall (fun c => Char.isWhiteSpace c = true) spaces
     /\ Char.isDigit d1 = true
     /\ Forall (fun c => Char.isTokenBody c = true) body
     /\ Char.isDigit d2 = true)
  /\ 2 <= Str.countAll Char.isDigit t
  /\ (forall c, In c t -> Char.isNumberChar c = true).
Proof.
  intros Hm Ht.
  destruct (token_parts s tokens t Hm Ht)
    as (marks & spaces & d1 & body & d2 & -> & Hmarks & Hsp & Hd1 & Hb & Hd2).
  split; [exists marks, spaces, d1, body, d2; auto 10|]. split.
  - rewrite !countAll_app.
    change (d1 :: body ++ [d2]) with ([d1] ++ body ++ [d2]).
    rewrite !countAll_app. unfold Str.countAll at 3 5. simpl.
    rewrite Hd1, Hd2. simpl. lia.
  - rewrite Forall_forall in Hmarks, Hsp, Hb.
    intros c Hc. apply in_app_or in Hc. destruct Hc as [Hc|Hc].
    { apply Hmarks in Hc. revert Hc. clear. unfold Char.isSignOrParen,
        Char.isNumberChar. intros H.
      destruct (Char.isMinus c), (Char.isParen c); try discriminate;
        rewrite ?orb_true_r; reflexivity. }
    apply in_app_or in Hc. destruct Hc as [Hc|Hc].
    { apply Hsp in Hc. unfold Char.isNumberChar. rewrite Hc, !orb_true_r.
      reflexivity. }
    destruct Hc as [<-|Hc]; [apply digit_number_char, Hd1|].
    apply in_app_or in Hc. destruct Hc as [Hc|[<-|[]]];
      [|apply digit_number_char, Hd2].
    apply Hb in Hc. revert Hc. clear. unfold Char.isTokenBody,
      Char.isNumberChar. intros H.
    destruct (Char.isDigit c), (Char.isDot c), (Char.isComma c),
      (Char.isParen c), (Char.isWhiteSpace c); try discriminate;
      rewrite ?orb_true_r; reflexivity.
Qed.

Lemma token_shape_and_alphabet_witness :
  2 <= Str.countAll Char.isDigit (lit " 3.5, (7 8").
Proof.
  apply (token_shape_and_alphabet (lit "a 12 and 3.5, (7 8) x-9-10")
           [lit " 12"; lit " 3.5, (7 8"; lit "-10"]).
  - vm_compute. reflexivity.
  - right. left. reflexivity.
Defined.

Lemma weave_cons c gaps tokens rest :
  length gaps = length tokens ->
  exists gaps' rest',
    length gaps' = length tokens
    /\ c :: weave gaps tokens ++ rest = weave gaps' tokens ++ rest'.
Proof.
  intros Hlen. destruct gaps as [|g gaps], tokens as [|t tokens];
    try discriminate.
  - exists [], (c :: rest). auto.
  - exists ((c :: g) :: gaps), rest. split; [exact Hlen | reflexivity].
Qed.

Lemma scan_weave r : forall s k,
  k <= length s ->
  exists gaps rest,
    length gaps = length (scan r s k)
    /\ skipn k s = weave gaps (scan r s k) ++ rest.
Proof.
  induction s as [|c s IH]; intros k Hk.
  - simpl in Hk. assert (k = 0) as -> by lia. simpl.
    destruct (matchHere r []).
    + exists [[]], []. auto.
    + exists [], []. auto.
  - destruct k as [|k].
    + simpl scan. simpl skipn.
      destruct (matchHere r (c :: s)) as [n|] eqn:Hn.
      * apply matchHere_sound in Hn. destruct Hn as [Hn _]. simpl in Hn.
        destruct n as [|n].
        -- destruct (IH 0 ltac:(lia)) as (gaps & rest & Hlen & Hs).
           simpl in Hs.
           destruct (weave_cons c gaps _ rest Hlen)
             as (gaps' & rest' & Hl & Hw).
           exists ([] :: gaps'), rest'. simpl. split; [congruence|].
           rewrite <- Hw, <- Hs. reflexivity.
        -- destruct (IH n ltac:(lia)) as (gaps & rest & Hlen & Hs).
           replace (S n - 1) with n by lia.
           exists ([] :: gaps), rest. simpl. split; [congruence|].
           rewrite <- app_assoc, <- Hs, firstn_skipn. reflexivity.
      * destruct (IH 0 ltac:(lia)) as (gaps & rest & Hlen & Hs).
        simpl in Hs.
        destruct (weave_cons c gaps _ rest Hlen) as (gaps' & rest' & Hl & Hw).
        exists gaps', rest'. split; [exact Hl|].
        rewrite <- Hw, <- Hs. reflexivity.
    + simpl. apply IH. simpl in Hk. lia.
Qed.

(** X9: the tokens of a cell are pieces of its text that do not overlap,
    in the order of the text: the text is a gap, the first token, a gap,
    the second token, and so on, and what is left after the last token. *)
Theorem tokens_in_order (s : jsstring) (tokens : list jsstring) :
  matchAll tokenRe s = Some tokens ->
  exists gaps rest,
    length gaps = length tokens /\ s = weave gaps tokens ++ rest.
Proof.
  unfold matchAll. intros Hm.
  destruct (scan_weave tokenRe s 0 ltac:(lia)) as (gaps & rest & Hlen & Hs).
  destruct (scan tokenRe s 0) as [|t ts]; [discriminate|].
  injection Hm as <-. exists gaps, rest. auto.
Qed.

Lemma tokens_in_order_witness :
  exists gaps rest,
    length gaps = 3
    /\ lit "a 12 and 3.5, (7 8) x-9-10"
       = weave gaps [lit " 12"; lit " 3.5, (7 8"; lit "-10"] ++ rest.
Proof.
  apply (tokens_in_order (lit "a 12 and 3.5, (7 8) x-9-10")
           [lit " 12"; lit " 3.5, (7 8"; lit "-10"]).
  vm_compute. reflexivity.
Defined.

(** ** The value of a token *)

Lemma existsb_false_forall (cls : codeUnit -> bool) s :
  existsb cls s = false <-> (forall c, In c s -> cls c = false).
Proof.
  split.
  - intros H c Hc. destruct (cls c) eqn:Hcls; [|reflexivity].
    rewrite <- H. symmetry. apply existsb_exists. eauto.
  - intros H. destruct (existsb cls s) eqn:He; [|reflexivity].
    apply existsb_exists in He. destruct He as (c & Hc & Hcls).
    rewrite (H c Hc) in Hcls. discriminate.
Qed.

Lemma afterLastDot_no_dot s :
  (forall c, In c s -> Char.isDot c = false) -> afterLastDot s = [].
Proof.
  induction s as [|c s IH]; intros H; simpl; [reflexivity|].
  assert (Hs : forall x, In x s -> Char.isDot x = false)
    by (intros x Hx; apply H; right; exact Hx).
  rewrite (proj2 (existsb_false_forall Char.isDot s) Hs).
  rewrite (H c) by (left; reflexivity). reflexivity.
Qed.

Lemma afterLastDot_app m d :
  (forall c, In c m -> Char.isDot c = false) ->
  afterLastDot (m ++ d) = afterLastDot d.
Proof.
  intros Hm. induction m as [|c m IH]; simpl; [reflexivity|].
  assert (Hm' : forall x, In x m -> Char.isDot x = false)
    by (intros x Hx; apply Hm; right; exact Hx).
  specialize (IH Hm').
  destruct (existsb Char.isDot (m ++ d)) eqn:He; [exact IH|].
  rewrite (Hm c) by (left; reflexivity).
  rewrite <- IH. symmetry. apply afterLastDot_no_dot.
  apply existsb_false_forall. exact He.
Qed.

Lemma afterLastDot_split ip fp :
  (forall c, In c ip -> Char.isDot c = false) ->
  (forall c, In c fp -> Char.isDot c = false) ->
  afterLastDot (ip ++ 46%N :: fp) = fp.
Proof.
  intros Hip Hfp. rewrite afterLastDot_app by exact Hip. simpl.
  rewrite (proj2 (existsb_false_forall Char.isDot fp) Hfp). reflexivity.
Qed.

Lemma existsb_filter (f : codeUnit -> bool) s :
  (forall c, Char.isDot c = true -> f c = true) ->
  existsb Char.isDot (filter f s) = existsb Char.isDot s.
Proof.
  intros Hf. induction s as [|c s IH]; simpl; [reflexivity|].
  destruct (f c) eqn:Hc; simpl; rewrite IH; [reflexivity|].
  destruct (Char.isDot c) eqn:Hd; [|reflexivity].
  apply Hf in Hd. congruence.
Qed.

Lemma afterLastDot_filter (f : codeUnit -> bool) s :
  (forall c, Char.isDot c = true -> f c = true) ->
  afterLastDot (filter f s) = filter f (afterLastDot s).
Proof.
  intros Hf. induction s as [|c s IH]; simpl; [reflexivity|].
  destruct (f c) eqn:Hc; simpl.
  - rewrite (existsb_filter f s Hf), IH.
    destruct (existsb Char.isDot s); [reflexivity|].
    destruct (Char.isDot c); reflexivity.
  - rewrite IH. destruct (existsb Char.isDot s) eqn:He; [reflexivity|].
    destruct (Char.isDot c) eqn:Hd; [apply Hf in Hd; congruence|].
    rewrite afterLastDot_no_dot; [reflexivity|].
    apply existsb_false_forall. exact He.
Qed.

Lemma In_dropInnerDots s c : In c (dropInnerDots s) -> In c s.
Proof.
  induction s as [|x s IH]; simpl; [tauto|].
  destruct (Char.isDot x && existsb Char.isDot s); simpl; tauto.
Qed.

Lemma existsb_dropInnerDots s :
  existsb Char.isDot (dropInnerDots s) = existsb Char.isDot s.
Proof.
  induction s as [|c s IH]; simpl; [reflexivity|].
  destruct (Char.isDot c) eqn:Hc, (existsb Char.isDot s) eqn:He; simpl;
    rewrite ?Hc, ?IH; reflexivity.
Qed.

Lemma afterLastDot_dropInnerDots s :
  afterLastDot (dropInnerDots s) = afterLastDot s.
Proof.
  induction s as [|c s IH]; simpl; [reflexivity|].
  destruct (Char.isDot c) eqn:Hc, (existsb Char.isDot s) eqn:He; simpl;
    rewrite ?existsb_dropInnerDots, ?He, ?Hc, ?IH; try reflexivity.
  - rewrite dropInnerDots_no_dot by exact He. reflexivity.
Qed.

Lemma filter_dropInnerDots (f : codeUnit -> bool) s :
  (forall c, f c = true -> Char.isDot c = false) ->
  filter f (dropInnerDots s) = filter f s.
Proof.
  intros Hf. induction s as [|c s IH]; simpl; [reflexivity|].
  destruct (f c) eqn:Hc.
  - rewrite (Hf c Hc). simpl. rewrite Hc, IH. reflexivity.
  - destruct (Char.isDot c && existsb Char.isDot s); simpl;
      rewrite ?Hc; exact IH.
Qed.

Lemma countAll_dot_dropInnerDots s :
  Str.countAll Char.isDot (dropInnerDots s) <= 1.
Proof.
  unfold Str.countAll. induction s as [|c s IH]; simpl; [lia|].
  destruct (Char.isDot c) eqn:Hc, (existsb Char.isDot s) eqn:He; simpl;
    rewrite ?Hc; simpl; try exact IH.
  rewrite dropInnerDots_no_dot by exact He.
  rewrite filter_none; [simpl; lia|].
  apply existsb_false_forall. exact He.
Qed.

Lemma dropInnerDots_app m d :
  (forall c, In c m -> Char.isDot c = false) ->
  dropInnerDots (m ++ d) = m ++ dropInnerDots d.
Proof.
  intros Hm. induction m as [|c m IH]; simpl; [reflexivity|].
  rewrite (Hm c) by (left; reflexivity). simpl. f_equal.
  apply IH. intros x Hx. apply Hm. right. exact Hx.
Qed.

(** A string of digits with at most one dot, which starts with a digit, is
    a literal: its value is made of all its digits, scaled by the digits
    after the dot. *)
Lemma unsignedDecimal_value u :
  (forall c, In c u -> Char.isDigit c = true \/ Char.isDot c = true) ->
  Str.countAll Char.isDot u <= 1 ->
  match u with
  | d :: _ => Char.isDigit d = true
  | [] => False
  end ->
  Num.unsignedDecimal u = Some (tokenDigits u, tokenScale u).
Proof.
  intros Hu Hdots Hhead. unfold tokenDigits, tokenScale.
  pose proof (takeDigits_spec u) as Hspec.
  destruct (Num.takeDigits u) as [ip r] eqn:Htake.
  destruct Hspec as (Heq & Hip & Hr).
  assert (Hipne : ip <> []).
  { intros ->. simpl in Heq. subst r. destruct u as [|d u]; [exact Hhead|].
    congruence. }
  assert (Hnd : forall q, (forall c, In c q -> Char.isDigit c = true) ->
                          forall c, In c q -> Char.isDot c = false)
    by (intros q Hq c Hc; apply digit_not_dot, Hq, Hc).
  destruct r as [|c r'].
  - rewrite app_nil_r in Heq. subst u.
    rewrite unsignedDecimal_digits by assumption.
    rewrite (filter_all Char.isDigit ip Hip).
    rewrite (afterLastDot_no_dot ip (Hnd ip Hip)). reflexivity.
  - assert (Hc : Char.isDot c = true).
    { destruct (Hu c) as [H|H]; [|congruence|exact H].
      rewrite Heq. apply in_or_app. right. left. reflexivity. }
    assert (c = 46%N) as -> by (apply N.eqb_eq; exact Hc).
    assert (Hfp : forall x, In x r' -> Char.isDigit x = true).
    { intros x Hx.
      destruct (Hu x) as [H|H]; [|exact H|].
      { rewrite Heq. apply in_or_app. right. right. exact Hx. }
      exfalso. rewrite Heq in Hdots.
      change (46%N :: r') with ([46%N] ++ r') in Hdots.
      rewrite !countAll_app in Hdots.
      assert (0 < Str.countAll Char.isDot r'); [|unfold Str.countAll in *;
                                                 simpl in *; lia].
      unfold Str.countAll. apply in_split in Hx.
      destruct Hx as (l1 & l2 & ->). rewrite filter_app, length_app. simpl.
      rewrite H. simpl. lia. }
    subst u. rewrite unsignedDecimal_decimal; try assumption.
    + rewrite filter_app. simpl.
      rewrite (filter_all Char.isDigit ip Hip), (filter_all Char.isDigit r' Hfp).
      rewrite afterLastDot_split by (apply Hnd; assumption).
      unfold Str.countAll. rewrite (filter_all Char.isDigit r' Hfp).
      reflexivity.
    + intros H. apply app_eq_nil in H. tauto.
Qed.

Lemma literal_minus_head c r :
  Char.isMinus c = true -> Num.unsignedDecimal (c :: r) = None.
Proof.
  intros Hc. unfold Num.unsignedDecimal. simpl.
  assert (Char.isDigit c = false) as -> by (revert Hc; clear; char_solve).
  assert (Char.isDot c = false) as -> by (revert Hc; clear; char_solve).
  reflexivity.
Qed.

Lemma payload_of_mark c :
  Char.isSignOrParen c = true -> isPayload c = true -> Char.isMinus c = true.
Proof. unfold isPayload. char_solve. Qed.

Lemma payload_of_body c :
  Char.isTokenBody c = true -> isPayload c = true ->
  Char.isDigit c = true \/ Char.isDot c = true.
Proof.
  unfold isPayload, Char.isTokenBody. intros Hb Hp.
  destruct (Char.isDigit c); [left; reflexivity|].
  destruct (Char.isDot c); [right; reflexivity|].
  exfalso. simpl in *. revert Hb Hp. clear. char_solve.
Qed.

(** What [Number] is called on for a token: its minus signs, then its
    digits with at most one dot, the first of them a digit. *)
Lemma token_cleaned s tokens t :
  matchAll tokenRe s = Some tokens -> In t tokens ->
  exists m d,
    separators (working t) = m ++ d
    /\ (forall c, In c m -> Char.isMinus c = true)
    /\ length m = Str.countAll Char.isMinus t
    /\ Num.unsignedDecimal d = Some (tokenDigits t, tokenScale t)
    /\ match d with
       | c :: _ => Char.isDigit c = true
       | [] => False
       end.
Proof.
  intros Hm Ht.
  destruct (token_parts s tokens t Hm Ht)
    as (marks & spaces & d1 & body & d2 & Heq & Hmarks & Hsp & Hd1 & Hb & Hd2).
  rewrite Forall_forall in Hmarks, Hsp, Hb.
  set (M := filter isPayload marks).
  set (D := d1 :: filter isPayload body ++ [d2]).
  assert (HP : filter isPayload t = M ++ D).
  { assert (Hp1 : isPayload d1 = true) by (unfold isPayload; rewrite Hd1; reflexivity).
    assert (Hp2 : isPayload d2 = true) by (unfold isPayload; rewrite Hd2; reflexivity).
    rewrite Heq, !filter_app. simpl. rewrite filter_app. simpl.
    rewrite Hp1, Hp2.
    rewrite (filter_none isPayload spaces); [reflexivity|].
    intros c Hc. apply Hsp in Hc. unfold isPayload.
    revert Hc. clear. char_solve. }
  assert (HM : forall c, In c M -> Char.isMinus c = true).
  { intros c Hc. apply filter_In in Hc. destruct Hc as [Hc Hp].
    apply payload_of_mark; [apply Hmarks, Hc | exact Hp]. }
  assert (HD : forall c, In c D ->
                         Char.isDigit c = true \/ Char.isDot c = true).
  { intros c [<-|Hc]; [left; exact Hd1|].
    apply in_app_or in Hc. destruct Hc as [Hc|[<-|[]]]; [|left; exact Hd2].
    apply filter_In in Hc. destruct Hc as [Hc Hp].
    apply payload_of_body; [apply Hb, Hc | exact Hp]. }
  assert (HMdot : forall c, In c M -> Char.isDot c = false).
  { intros c Hc. apply HM in Hc. revert Hc. clear. char_solve. }
  assert (HMdigit : forall c, In c M -> Char.isDigit c = false).
  { intros c Hc. apply HM in Hc. revert Hc. clear. char_solve. }
  assert (HDminus : forall c, In c D -> Char.isMinus c = false).
  { intros c Hc. destruct (HD c Hc) as [H|H]; revert H; clear; char_solve. }
  set (D' := if Str.countAll Char.isDot D <=? 1 then D else dropInnerDots D).
  assert (Hstr : separators (working t) = M ++ D').
  { rewrite separators_working, HP, separators_dropInnerDots.
    assert (Hcomma : Str.deleteAll Char.isComma (M ++ D) = M ++ D).
    { apply filter_all. intros c Hc. apply negb_true_iff.
      apply in_app_or in Hc. destruct Hc as [Hc|Hc].
      - apply HM in Hc. revert Hc. clear. char_solve.
      - destruct (HD c Hc) as [H|H]; revert H; clear; char_solve. }
    rewrite Hcomma, countAll_app.
    assert (Str.countAll Char.isDot M = 0) as ->.
    { unfold Str.countAll. rewrite (filter_none Char.isDot M HMdot).
      reflexivity. }
    simpl. unfold D'.
    destruct (Str.countAll Char.isDot D <=? 1); [reflexivity|].
    apply dropInnerDots_app. exact HMdot. }
  assert (HD'in : forall c, In c D' -> In c D).
  { unfold D'. destruct (Str.countAll Char.isDot D <=? 1); [auto|].
    intros c. apply In_dropInnerDots. }
  assert (HD'dots : Str.countAll Char.isDot D' <= 1).
  { unfold D'. destruct (Str.countAll Char.isDot D <=? 1) eqn:H.
    - apply Nat.leb_le. exact H.
    - apply countAll_dot_dropInnerDots. }
  assert (HD'head : exists r, D' = d1 :: r).
  { unfold D'. destruct (Str.countAll Char.isDot D <=? 1); unfold D.
    - eauto.
    - simpl. rewrite (digit_not_dot d1 Hd1). simpl. eauto. }
  assert (HD'digits : filter Char.isDigit D' = filter Char.isDigit t).
  { transitivity (filter Char.isDigit D).
    - unfold D'. destruct (Str.countAll Char.isDot D <=? 1); [reflexivity|].
      apply filter_dropInnerDots. intros c. apply digit_not_dot.
    - rewrite <- (filter_filter_keep Char.isDigit isPayload t).
      + rewrite HP, filter_app, (filter_none Char.isDigit M HMdigit).
        reflexivity.
      + intros c Hc. unfold isPayload. rewrite Hc. reflexivity. }
  assert (HD'after : tokenScale D' = tokenScale t).
  { unfold tokenScale.
    assert (afterLastDot D' = afterLastDot D) as ->.
    { unfold D'. destruct (Str.countAll Char.isDot D <=? 1); [reflexivity|].
      apply afterLastDot_dropInnerDots. }
    rewrite <- (afterLastDot_app M D HMdot), <- HP.
    rewrite afterLastDot_filter.
    - unfold Str.countAll. rewrite filter_filter_keep; [reflexivity|].
      intros c Hc. unfold isPayload. rewrite Hc. reflexivity.
    - intros c Hc. unfold isPayload. rewrite Hc, orb_true_r. reflexivity. }
  exists M, D'. split; [exact Hstr|]. split; [exact HM|]. split; [|split].
  - rewrite <- (countAll_working Char.isMinus t).
    2:{ intros c Hc. unfold isKept, isPayload. rewrite Hc, !orb_true_r.
        reflexivity. }
    rewrite working_filter.
    assert (Hk : Str.countAll Char.isMinus (filter isKept t)
                 = Str.countAll Char.isMinus (filter isPayload t)).
    { unfold Str.countAll. rewrite !filter_filter_keep; [reflexivity|..];
        intros c Hc; unfold isKept, isPayload; rewrite Hc, ?orb_true_r;
        reflexivity. }
    rewrite Hk, HP, countAll_app. unfold Str.countAll.
    rewrite (filter_all Char.isMinus M HM).
    rewrite (filter_none Char.isMinus D HDminus). simpl. lia.
  - destruct HD'head as [r Hr].
    rewrite unsignedDecimal_value.
    + unfold tokenDigits. rewrite HD'digits, HD'after. reflexivity.
    + intros c Hc. apply HD, HD'in, Hc.
    + exact HD'dots.
    + rewrite Hr. exact Hd1.
  - destruct HD'head as [r ->]. exact Hd1.
Qed.

Lemma token_trim_nonempty s tokens t :
  matchAll tokenRe s = Some tokens -> In t tokens -> Str.trim t <> [].
Proof.
  intros Hm Ht Hnil.
  destruct (token_parts s tokens t Hm Ht)
    as (marks & spaces & d1 & body & d2 & -> & _ & _ & Hd1 & _).
  apply trim_nil_white in Hnil. rewrite Forall_forall in Hnil.
  specialize (Hnil d1). rewrite (digit_not_white d1 Hd1) in Hnil.
  assert (false = true); [|discriminate].
  apply Hnil. apply in_or_app. right. apply in_or_app. right. left.
  reflexivity.
Qed.

Lemma token_parse (s : jsstring) (tokens : list jsstring) (t : jsstring) :
  matchAll tokenRe s = Some tokens -> In t tokens ->
  parseNumberFromString (JString t)
  = match Str.countAll Char.isMinus t with
    | 0 => Some (Num.ofDecimal false (tokenDigits t) (tokenScale t))
    | 1 => Some (Num.ofDecimal true (tokenDigits t) (tokenScale t))
    | _ => None
    end.
Proof.
  intros Hm Ht.
  destruct (token_cleaned s tokens t Hm Ht)
    as (m & d & Hstr & Hminus & Hlen & Hlit & Hhead).
  rewrite parseNumberFromString_unfold
    by (eapply token_trim_nonempty; eassumption).
  rewrite (token_never_paren_negative s tokens t Hm Ht). cbv zeta.
  assert (Hnum : Number (m ++ d)
                 = match m with
                   | [] => Num.ofDecimal false (tokenDigits t) (tokenScale t)
                   | [_] => Num.ofDecimal true (tokenDigits t) (tokenScale t)
                   | _ => Num.NaN
                   end).
  { unfold Number. rewrite trim_id.
    - destruct m as [|c1 [|c2 m]]; simpl.
      + destruct d as [|c r]; [destruct Hhead|].
        rewrite (digit_not_minus c Hhead), (digit_not_plus c Hhead), Hlit.
        reflexivity.
      + rewrite (Hminus c1) by (left; reflexivity). rewrite Hlit. reflexivity.
      + rewrite (Hminus c1) by (left; reflexivity).
        rewrite literal_minus_head; [reflexivity|].
        apply Hminus. right. left. reflexivity.
    - rewrite <- Hstr. apply separators_working_no_white. }
  rewrite Hstr, Hnum, <- Hlen.
  destruct m as [|c1 [|c2 m]]; simpl;
    rewrite ?ofDecimal_not_NaN; reflexivity.
Qed.

(** X10: what every token of a cell parses to.  Without a minus sign it is
    the decimal made of all the digits of the token, scaled by the number of
    its digits after its last dot; with one minus sign, the same with a
    negative sign; with two minus signs or more, [null].  Parentheses,
    white space, commas and the dots before the last one play no part. *)
Theorem token_value (s : jsstring) (tokens : list jsstring) (t : jsstring) :
  matchAll tokenRe s = Some tokens -> In t tokens ->
  parseNumberFromString (JString t)
  = match Str.countAll Char.isMinus t with
    | 0 => Some (Num.ofDecimal false (tokenDigits t) (tokenScale t))
    | 1 => Some (Num.ofDecimal true (tokenDigits t) (tokenScale t))
    | _ => None
    end.
Proof. apply token_parse. Qed.

Lemma token_value_witness :
  parseNumberFromString (JString (lit "-(1.2.3,4)5"))
  = Some (Num.ofDecimal true 12345 3).
Proof.
  apply (token_value (lit "see -(1.2.3,4)5 / --12") [lit "-(1.2.3,4)5"; lit "--12"]).
  - vm_compute. reflexivity.
  - left. reflexivity.
Defined.

(** ** Sums of safe integers are exact *)

Lemma iter_pos_Pos_iter {A} (f : A -> A) p : forall x, iter_pos f p x = Pos.iter f x p.
Proof.
  induction p as [p IH|p IH|]; intros x; simpl.
  - rewrite !IH. rewrite <- !Pos.iter_swap. reflexivity.
  - rewrite !IH. reflexivity.
  - reflexivity.
Qed.

Lemma shr_iter_xO q p :
  iter_pos shr_1 p (Build_shr_record (Zpos (Pos.iter xO q p)) false false)
  = Build_shr_record (Zpos q) false false.
Proof.
  rewrite iter_pos_Pos_iter.
  induction p as [|p IH] using Pos.peano_ind.
  - reflexivity.
  - rewrite Pos.iter_succ_r. rewrite Pos.iter_succ. simpl. exact IH.
Qed.

Lemma fexp_small d :
  (-1021 <= d <= 1024)%Z -> fexp Num.prec Num.emax d = (d - 53)%Z.
Proof. unfold fexp, emin, Num.prec, Num.emax. lia. Qed.

Lemma binary_round_aux_canonical sx q e :
  digits2_pos q = 53%positive -> (-1074 <= e <= 971)%Z ->
  binary_round_aux Num.prec Num.emax sx (Zpos q) e loc_Exact = S754_finite sx q e.
Proof.
  intros Hq He. unfold binary_round_aux, shr_fexp.
  change (Zdigits2 (Zpos q)) with (Zpos (digits2_pos q)). rewrite Hq.
  rewrite fexp_small by lia.
  replace (53 + e - 53 - e)%Z with 0%Z by lia.
  cbn [shr shr_record_of_loc shr_m loc_of_shr_record round_nearest_even].
  change (Zdigits2 (Zpos q)) with (Zpos (digits2_pos q)). rewrite Hq.
  rewrite fexp_small by lia.
  replace (53 + e - 53 - e)%Z with 0%Z by lia.
  cbn [shr shr_m].
  replace (e <=? Num.emax - Num.prec)%Z with true; [reflexivity|].
  symmetry. apply Z.leb_le. unfold Num.prec, Num.emax. lia.
Qed.

Lemma binary_round_aux_shift sx q e p :
  digits2_pos q = 53%positive -> (-1074 <= e <= 971)%Z ->
  (-1074 <= e - Zpos p)%Z ->
  binary_round_aux Num.prec Num.emax sx (Zpos (Pos.iter xO q p)) (e - Zpos p) loc_Exact
  = S754_finite sx q e.
Proof.
  intros Hq He Hp.
  unfold binary_round_aux, shr_fexp.
  change (Zdigits2 (Zpos (Pos.iter xO q p))) with (Zpos (digits2_pos (Pos.iter xO q p))).
  rewrite digits2_iter_xO, Hq.
  rewrite fexp_small by lia.
  replace (Z.pos (53 + p) + (e - Z.pos p) - 53 - (e - Z.pos p))%Z with (Zpos p) by lia.
  cbn [shr shr_record_of_loc]. rewrite shr_iter_xO.
  cbn [shr_m loc_of_shr_record round_nearest_even].
  replace (e - Z.pos p + Z.pos p)%Z with e by lia.
  change (Zdigits2 (Zpos q)) with (Zpos (digits2_pos q)). rewrite Hq.
  rewrite fexp_small by lia.
  replace (53 + e - 53 - e)%Z with 0%Z by lia.
  cbn [shr shr_m].
  replace (e <=? Num.emax - Num.prec)%Z with true; [reflexivity|].
  symmetry. apply Z.leb_le. unfold Num.prec, Num.emax. lia.
Qed.

Lemma digits2_shiftl n k :
  Zpos (digits2_pos (Pos.shiftl n k)) = (Zpos (digits2_pos n) + Z.of_N k)%Z.
Proof.
  destruct k as [|k]; simpl; [lia|]. rewrite digits2_iter_xO. lia.
Qed.

Lemma shiftl_shiftl n a b : Pos.shiftl (Pos.shiftl n a) b = Pos.shiftl n (a + b).
Proof.
  destruct a as [|a], b as [|b]; simpl; try reflexivity.
  rewrite (Pos.add_comm a b), Pos.iter_add. reflexivity.
Qed.

Lemma binary_round_exact sx n k :
  (Zpos (digits2_pos n) <= 53)%Z -> (Z.of_N k <= 1021)%Z ->
  binary_round Num.prec Num.emax sx (Pos.shiftl n k) (- Z.of_N k)
  = S754_finite sx (canon n) (Zpos (digits2_pos n) - 53).
Proof.
  intros Hn Hk. unfold binary_round.
  rewrite digits2_shiftl.
  rewrite fexp_small by lia.
  replace (Z.pos (digits2_pos n) + Z.of_N k + - Z.of_N k - 53)%Z with (Zpos (digits2_pos n) - 53)%Z by lia.
  unfold shl_align.
  assert (Hcanon : digits2_pos (canon n) = 53%positive).
  { unfold canon. pose proof (digits2_shiftl n (53 - N.pos (digits2_pos n))) as H. lia. }
  destruct (Z.pos (digits2_pos n) - 53 - - Z.of_N k)%Z as [|p|p] eqn:Hd.
  - assert (k = (53 - Npos (digits2_pos n))%N) as -> by lia.
    replace (- Z.of_N (53 - N.pos (digits2_pos n)))%Z with (Zpos (digits2_pos n) - 53)%Z by lia.
    apply binary_round_aux_canonical; [exact Hcanon | lia].
  - assert (Hk' : k = ((53 - Npos (digits2_pos n)) + Npos p)%N) by lia.
    rewrite Hk', <- shiftl_shiftl. fold (canon n). simpl Pos.shiftl.
    replace (- Z.of_N (53 - N.pos (digits2_pos n) + N.pos p))%Z with (Zpos (digits2_pos n) - 53 - Zpos p)%Z by lia.
    apply binary_round_aux_shift; [exact Hcanon | lia | lia].
  - assert (Hc : canon n = Pos.iter xO (Pos.shiftl n k) p).
    { unfold canon. replace (53 - N.pos (digits2_pos n))%N with (k + Npos p)%N by lia.
      rewrite <- shiftl_shiftl. reflexivity. }
    rewrite <- Hc. apply binary_round_aux_canonical; [exact Hcanon | lia].
Qed.

Lemma shiftl_value n k : Zpos (Pos.shiftl n k) = (Zpos n * 2 ^ Z.of_N k)%Z.
Proof.
  destruct k as [|k]; simpl Pos.shiftl; [simpl; lia|].
  rewrite iter_xO_value. reflexivity.
Qed.

Lemma ofDecimal_canonical neg n :
  (Zpos (digits2_pos n) <= 53)%Z ->
  Num.ofDecimal neg (Npos n) 0
  = S754_finite neg (canon n) (Zpos (digits2_pos n) - 53).
Proof.
  intros Hd. destruct (ofDecimal_integer neg n Hd) as (q & -> & Hq).
  f_equal. apply Pos2Z.inj. rewrite Hq. unfold canon. rewrite shiftl_value.
  f_equal. f_equal. lia.
Qed.

Lemma shl_align_value q e e' :
  (e' <= e)%Z -> Zpos (fst (shl_align q e e')) = (Zpos q * 2 ^ (e - e'))%Z.
Proof.
  intros H. unfold shl_align.
  destruct (e' - e)%Z as [|d|d] eqn:Hd; simpl fst.
  - replace (e - e')%Z with 0%Z by lia. simpl. lia.
  - lia.
  - rewrite iter_xO_value. f_equal. f_equal. lia.
Qed.

Lemma binary_normalize_exact c k :
  (- MAX_SAFE_INTEGER <= c <= MAX_SAFE_INTEGER)%Z -> (Z.of_N k <= 1021)%Z ->
  binary_normalize Num.prec Num.emax (c * 2 ^ Z.of_N k) (- Z.of_N k) false
  = Num.ofZ c.
Proof.
  intros Hc Hk. unfold Num.ofZ.
  destruct c as [|n|n].
  - reflexivity.
  - assert (Hd : (Zpos (digits2_pos n) <= 53)%Z) by (apply digits2_pos_safe; lia).
    rewrite <- shiftl_value. simpl binary_normalize.
    rewrite binary_round_exact by assumption.
    change (Z.abs_N (Zpos n)) with (Npos n). change (Zpos n <? 0)%Z with false.
    rewrite ofDecimal_canonical by exact Hd. reflexivity.
  - assert (Hd : (Zpos (digits2_pos n) <= 53)%Z) by (apply digits2_pos_safe; lia).
    replace (Z.neg n * 2 ^ Z.of_N k)%Z with (Z.neg (Pos.shiftl n k)).
    2:{ rewrite <- Pos2Z.opp_pos, shiftl_value. lia. }
    simpl binary_normalize.
    rewrite binary_round_exact by assumption.
    change (Z.abs_N (Zneg n)) with (Npos n). change (Zneg n <? 0)%Z with true.
    rewrite ofDecimal_canonical by exact Hd. reflexivity.
Qed.

Lemma ofZ_finite c :
  c <> 0%Z -> (- MAX_SAFE_INTEGER <= c <= MAX_SAFE_INTEGER)%Z ->
  exists q e, Num.ofZ c = S754_finite (c <? 0)%Z q e
    /\ (-52 <= e <= 0)%Z
    /\ (Zpos q * 2 ^ (e + 52) = Z.abs c * 2 ^ 52)%Z.
Proof.
  intros Hne Hc. unfold Num.ofZ.
  destruct c as [|n|n]; [congruence|..];
    change (Z.abs_N _) with (Npos n);
    (assert (Hd : (Zpos (digits2_pos n) <= 53)%Z) by (apply digits2_pos_safe; lia));
    rewrite ofDecimal_canonical by exact Hd;
    exists (canon n), (Zpos (digits2_pos n) - 53)%Z;
    (split; [reflexivity|]); (split; [lia|]);
    unfold canon; rewrite shiftl_value;
    replace (Z.of_N (53 - N.pos (digits2_pos n))) with (53 - Zpos (digits2_pos n))%Z by lia;
    rewrite <- Z.mul_assoc, <- Z.pow_add_r by lia;
    simpl Z.abs; f_equal; f_equal; lia.
Qed.

Lemma add_exact a b :
  (- MAX_SAFE_INTEGER <= a <= MAX_SAFE_INTEGER)%Z ->
  (- MAX_SAFE_INTEGER <= b <= MAX_SAFE_INTEGER)%Z ->
  (- MAX_SAFE_INTEGER <= a + b <= MAX_SAFE_INTEGER)%Z ->
  Num.add (Num.ofZ a) (Num.ofZ b) = Num.ofZ (a + b).
Proof.
  intros Ha Hb Hab.
  destruct (Z.eq_dec a 0) as [->|Hna].
  { simpl Num.ofZ at 1. change (Num.ofZ 0) with (S754_zero false).
    destruct (Z.eq_dec b 0) as [->|Hnb]; [reflexivity|].
    destruct (ofZ_finite b Hnb Hb) as (q & e & Hq & _). simpl. rewrite Hq. reflexivity. }
  destruct (Z.eq_dec b 0) as [->|Hnb].
  { rewrite Z.add_0_r. change (Num.ofZ 0) with (S754_zero false).
    destruct (ofZ_finite a Hna Ha) as (q & e & Hq & _). rewrite Hq. reflexivity. }
  destruct (ofZ_finite a Hna Ha) as (qa & ea & Hqa & Hea & Hva).
  destruct (ofZ_finite b Hnb Hb) as (qb & eb & Hqb & Heb & Hvb).
  rewrite Hqa, Hqb. unfold Num.add, SFadd.
  set (ez := Z.min ea eb).
  rewrite <- (binary_normalize_exact (a + b) (Z.to_N (- ez))) by (try assumption; lia).
  replace (- Z.of_N (Z.to_N (- ez)))%Z with ez by lia.
  f_equal.
  rewrite !shl_align_value by lia.
  replace (Z.of_N (Z.to_N (- ez))) with (- ez)%Z by lia.
  assert (Hpa : (Zpos qa * 2 ^ (ea - ez) = Z.abs a * 2 ^ (- ez))%Z).
  { apply (Z.mul_reg_r _ _ (2 ^ (ez + 52))); [apply Z.pow_nonzero; lia|].
    rewrite <- !Z.mul_assoc, <- !Z.pow_add_r by lia.
    replace (ea - ez + (ez + 52))%Z with (ea + 52)%Z by lia.
    replace (- ez + (ez + 52))%Z with 52%Z by lia. exact Hva. }
  assert (Hpb : (Zpos qb * 2 ^ (eb - ez) = Z.abs b * 2 ^ (- ez))%Z).
  { apply (Z.mul_reg_r _ _ (2 ^ (ez + 52))); [apply Z.pow_nonzero; lia|].
    rewrite <- !Z.mul_assoc, <- !Z.pow_add_r by lia.
    replace (eb - ez + (ez + 52))%Z with (eb + 52)%Z by lia.
    replace (- ez + (ez + 52))%Z with 52%Z by lia. exact Hvb. }
  rewrite Hpa, Hpb.
  rewrite Z.mul_add_distr_r. f_equal.
  - destruct (a <? 0)%Z eqn:Hs; simpl cond_Zopp.
    + apply Z.ltb_lt in Hs. rewrite Z.abs_neq by lia. lia.
    + apply Z.ltb_ge in Hs. rewrite Z.abs_eq by lia. reflexivity.
  - destruct (b <? 0)%Z eqn:Hs; simpl cond_Zopp.
    + apply Z.ltb_lt in Hs. rewrite Z.abs_neq by lia. lia.
    + apply Z.ltb_ge in Hs. rewrite Z.abs_eq by lia. reflexivity.
Qed.

Lemma isSafeInteger_spec z :
  isSafeInteger z = true <->
  (- MAX_SAFE_INTEGER <= z <= MAX_SAFE_INTEGER)%Z.
Proof.
  unfold isSafeInteger. rewrite andb_true_iff, !Z.leb_le. reflexivity.
Qed.

(** Adding the value of an integer token to an exact total. *)
Lemma add_integer_token (acc : Z) (neg : bool) (m : N) :
  (- MAX_SAFE_INTEGER <= acc <= MAX_SAFE_INTEGER)%Z ->
  (Z.of_N m <= MAX_SAFE_INTEGER)%Z ->
  (- MAX_SAFE_INTEGER
   <= acc + (if neg then - Z.of_N m else Z.of_N m)
   <= MAX_SAFE_INTEGER)%Z ->
  Num.add (Num.ofZ acc) (Num.ofDecimal neg m 0)
  = Num.ofZ (acc + (if neg then - Z.of_N m else Z.of_N m)).
Proof.
  intros Hacc Hm Hsum. destruct m as [|p].
  - replace (acc + (if neg then - Z.of_N 0 else Z.of_N 0))%Z with acc
      by (destruct neg; simpl; lia).
    simpl Num.ofDecimal.
    destruct (Z.eq_dec acc 0) as [->|Hne].
    + destruct neg; reflexivity.
    + destruct (ofZ_finite acc Hne Hacc) as (q & e & -> & _). reflexivity.
  - assert (Hz : Num.ofDecimal neg (Npos p) 0
                 = Num.ofZ (if neg then - Z.of_N (Npos p)
                            else Z.of_N (Npos p)))
      by (destruct neg; reflexivity).
    rewrite Hz. apply add_exact; [exact Hacc| |exact Hsum].
    unfold MAX_SAFE_INTEGER in *. destruct neg; simpl in *; lia.
Qed.

Lemma flat_map_singletons {A B} (f : A -> list B) (g : A -> B) l :
  (forall x, In x l -> f x = [g x]) -> flat_map f l = map g l.
Proof.
  induction l as [|a l IH]; intros H; simpl; [reflexivity|].
  rewrite (H a) by (left; reflexivity). simpl. f_equal.
  apply IH. intros x Hx. apply H. right. exact Hx.
Qed.

(** The parsed values of a page whose tokens are all integers. *)
Lemma parsedValues_integers cellTexts :
  (forall t, In t (allTokens cellTexts) ->
             tokenScale t = 0 /\ Str.countAll Char.isMinus t <= 1) ->
  parsedValues cellTexts
  = map (fun t => Num.ofDecimal (Nat.eqb (Str.countAll Char.isMinus t) 1)
                    (tokenDigits t) 0)
      (allTokens cellTexts).
Proof.
  unfold parsedValues, allTokens.
  induction cellTexts as [|s cellTexts IH]; intros H; [reflexivity|].
  simpl in *. rewrite map_app, IH.
  2:{ intros t Ht. apply H. apply in_or_app. right. exact Ht. }
  f_equal. destruct (matchAll tokenRe s) as [tokens|] eqn:Hm; [|reflexivity].
  apply flat_map_singletons. intros t Ht.
  rewrite (token_parse s tokens t Hm Ht).
  destruct (H t) as [Hk Hc]; [apply in_or_app; left; exact Ht|].
  rewrite Hk.
  destruct (Str.countAll Char.isMinus t) as [|[|n]]; [reflexivity..|lia].
Qed.

Lemma tokenInteger_value t :
  tokenInteger t
  = (if Nat.eqb (Str.countAll Char.isMinus t) 1
     then - Z.of_N (tokenDigits t) else Z.of_N (tokenDigits t))%Z.
Proof. reflexivity. Qed.

Lemma fold_add_integers ts : forall acc,
  (- MAX_SAFE_INTEGER <= acc <= MAX_SAFE_INTEGER)%Z ->
  sumsSafe acc (map tokenInteger ts) = true ->
  fold_left Num.add
    (map (fun t => Num.ofDecimal (Nat.eqb (Str.countAll Char.isMinus t) 1)
                     (tokenDigits t) 0) ts)
    (Num.ofZ acc)
  = Num.ofZ (fold_left Z.add (map tokenInteger ts) acc)
  /\ (- MAX_SAFE_INTEGER
      <= fold_left Z.add (map tokenInteger ts) acc
      <= MAX_SAFE_INTEGER)%Z.
Proof.
  induction ts as [|t ts IH]; intros acc Hacc Hsafe; simpl; [auto|].
  simpl in Hsafe. apply andb_true_iff in Hsafe. destruct Hsafe as [Hsafe Hrest].
  apply andb_true_iff in Hsafe. destruct Hsafe as [Ht Hsum].
  apply isSafeInteger_spec in Ht, Hsum.
  rewrite add_integer_token.
  - rewrite <- tokenInteger_value. apply IH; assumption.
  - exact Hacc.
  - rewrite tokenInteger_value in Ht.
    destruct (Nat.eqb (Str.countAll Char.isMinus t) 1); lia.
  - rewrite <- tokenInteger_value. exact Hsum.
Qed.

Lemma tokenScale_no_dot t : Str.countAll Char.isDot t = 0 -> tokenScale t = 0.
Proof.
  intros H. unfold tokenScale. rewrite afterLastDot_no_dot; [reflexivity|].
  intros c Hc. destruct (Char.isDot c) eqn:Hd; [|reflexivity].
  exfalso. apply in_split in Hc. destruct Hc as (l1 & l2 & ->).
  unfold Str.countAll in H. rewrite filter_app, length_app in H.
  simpl in H. rewrite Hd in H. simpl in H. lia.
Qed.

Lemma accumulate_integers cellTexts :
  (forall t, In t (allTokens cellTexts) ->
             Str.countAll Char.isDot t = 0
             /\ Str.countAll Char.isMinus t <= 1) ->
  sumsSafe 0 (map tokenInteger (allTokens cellTexts)) = true ->
  accumulate cellTexts = Num.ofZ (sumZ (map tokenInteger (allTokens cellTexts)))
  /\ (- MAX_SAFE_INTEGER
      <= sumZ (map tokenInteger (allTokens cellTexts))
      <= MAX_SAFE_INTEGER)%Z.
Proof.
  intros Hint Hsafe. unfold accumulate. rewrite fold_addCell_values.
  rewrite parsedValues_integers.
  - apply (fold_add_integers (allTokens cellTexts) 0); [|exact Hsafe].
    unfold MAX_SAFE_INTEGER. simpl. lia.
  - intros t Ht. destruct (Hint t Ht) as [Hd Hm].
    split; [apply tokenScale_no_dot; exact Hd | exact Hm].
Qed.

(** X11: a page of integers is summed exactly.  When no token of the page
    holds a dot or more than one minus sign, and the integers of the tokens
    and the sums reached along the way are safe integers, the page subtotal
    is the sum of the integers of the tokens: nothing is rounded off. *)
Theorem accumulate_integers_exact (cellTexts : list jsstring) :
  (forall t, In t (allTokens cellTexts) ->
             Str.countAll Char.isDot t = 0
             /\ Str.countAll Char.isMinus t <= 1) ->
  sumsSafe 0 (map tokenInteger (allTokens cellTexts)) = true ->
  accumulate cellTexts = Num.ofZ (sumZ (map tokenInteger (allTokens cellTexts)))
  /\ Num.integerValue (accumulate cellTexts)
     = Some (sumZ (map tokenInteger (allTokens cellTexts))).
Proof.
  intros Hint Hsafe.
  destruct (accumulate_integers cellTexts Hint Hsafe) as [Heq Hrange].
  split; [exact Heq|]. rewrite Heq. apply ofZ_exact. exact Hrange.
Qed.

Lemma accumulate_integers_exact_witness :
  accumulate [lit "Revenue: $1,200"; lit "Cost: (300)"; lit "Net -45 (est.)"]
  = Num.ofZ 1455
  /\ Num.integerValue
       (accumulate
          [lit "Revenue: $1,200"; lit "Cost: (300)"; lit "Net -45 (est.)"])
     = Some 1455%Z.
Proof.
  apply (accumulate_integers_exact
           [lit "Revenue: $1,200"; lit "Cost: (300)"; lit "Net -45 (est.)"]).
  - intros t Ht. vm_compute in Ht.
    repeat (destruct Ht as [<-|Ht]; [vm_compute; auto|]). destruct Ht.
  - vm_compute. reflexivity.
Defined.

(** ** Cells that cannot hold a token *)




(** ** The grand total *)

Lemma fold_visit_loaded pages : forall total,
  fold_left visit (filter isLoaded pages) total = fold_left visit pages total.
Proof.
  induction pages as [|p pages IH]; intros total; [reflexivity|].
  destruct p; simpl; apply IH.
Qed.

(** X13: a page that fails leaves the grand total as it is, wherever it
    stands in the run: the grand total of a run is that of the run without
    its failed pages, and a run in which every page fails ends on 0. *)
Theorem grandTotal_ignores_failed_pages (pages : list pageOutcome) :
  grandTotal pages = grandTotal (filter isLoaded pages)
  /\ (forallb (fun p => negb (isLoaded p)) pages = true ->
      grandTotal pages = Num.zero).
Proof.
  assert (H : grandTotal pages = grandTotal (filter isLoaded pages)).
  { unfold grandTotal. symmetry. apply fold_visit_loaded. }
  split; [exact H|].
  intros Hall. rewrite H. rewrite filter_none; [reflexivity|].
  intros p Hp. rewrite forallb_forall in Hall.
  apply negb_true_iff. apply Hall, Hp.
Qed.

Lemma grandTotal_ignores_failed_pages_witness :
  grandTotal [PageFailed; PageLoaded [lit "10"; lit "20"] []; PageFailed]
  = grandTotal [PageLoaded [lit "10"; lit "20"] []]
  /\ grandTotal [PageFailed; PageFailed] = Num.zero.
Proof.
  split.
  - apply (grandTotal_ignores_failed_pages
             [PageFailed; PageLoaded [lit "10"; lit "20"] []; PageFailed]).
  - apply (grandTotal_ignores_failed_pages [PageFailed; PageFailed]).
    reflexivity.
Defined.

Lemma pageSubtotal_pageCells rawCellTexts alt :
  pageSubtotal rawCellTexts alt = accumulate (pageCells rawCellTexts alt).
Proof. destruct rawCellTexts; reflexivity. Qed.

Lemma fold_visit_integers pages : forall acc,
  (forall p t, In p pages -> In t (pageTokens p) ->
               Str.countAll Char.isDot t = 0
               /\ Str.countAll Char.isMinus t <= 1) ->
  (forall p, In p pages ->
             sumsSafe 0 (map tokenInteger (pageTokens p)) = true) ->
  (- MAX_SAFE_INTEGER <= acc <= MAX_SAFE_INTEGER)%Z ->
  sumsSafe acc (map pageInteger pages) = true ->
  fold_left visit pages (Num.ofZ acc)
  = Num.ofZ (fold_left Z.add (map pageInteger pages) acc)
  /\ (- MAX_SAFE_INTEGER
      <= fold_left Z.add (map pageInteger pages) acc
      <= MAX_SAFE_INTEGER)%Z.
Proof.
  induction pages as [|p pages IH]; intros acc Htok Hpage Hacc Hsafe;
    simpl; [auto|].
  simpl in Hsafe. apply andb_true_iff in Hsafe. destruct Hsafe as [Hsafe Hrest].
  apply andb_true_iff in Hsafe. destruct Hsafe as [Hp Hsum].
  apply isSafeInteger_spec in Hp, Hsum.
  assert (Hstep : visit (Num.ofZ acc) p = Num.ofZ (acc + pageInteger p)).
  { destruct p as [|raw alt]; simpl.
    - rewrite Z.add_0_r. reflexivity.
    - rewrite pageSubtotal_pageCells.
      destruct (accumulate_integers (pageCells raw alt)) as [-> _].
      + intros t Ht. apply (Htok (PageLoaded raw alt)); [left; reflexivity|].
        exact Ht.
      + apply (Hpage (PageLoaded raw alt)). left. reflexivity.
      + apply add_exact; assumption. }
  rewrite Hstep. apply IH; try assumption.
  - intros q t Hq. apply Htok. right. exact Hq.
  - intros q Hq. apply Hpage. right. exact Hq.
Qed.

(** X14: a run over pages of integers gives the exact grand total.  When
    no token of a loaded page holds a dot or more than one minus sign, and
    the sums reached inside each page and from page to page are safe
    integers, the grand total is the sum of the integers of all the tokens
    of the pages that loaded. *)
Theorem grandTotal_integers_exact (pages : list pageOutcome) :
  (forall p t, In p pages -> In t (pageTokens p) ->
               Str.countAll Char.isDot t = 0
               /\ Str.countAll Char.isMinus t <= 1) ->
  (forall p, In p pages ->
             sumsSafe 0 (map tokenInteger (pageTokens p)) = true) ->
  sumsSafe 0 (map pageInteger pages) = true ->
  grandTotal pages = Num.ofZ (sumZ (map pageInteger pages))
  /\ Num.integerValue (grandTotal pages) = Some (sumZ (map pageInteger pages)).
Proof.
  intros Htok Hpage Hsafe.
  destruct (fold_visit_integers pages 0 Htok Hpage) as [Heq Hrange];
    [unfold MAX_SAFE_INTEGER; simpl; lia | exact Hsafe |].
  unfold grandTotal, sumZ. change Num.zero with (Num.ofZ 0).
  split; [exact Heq|]. rewrite Heq. apply ofZ_exact. exact Hrange.
Qed.

Lemma grandTotal_integers_exact_witness :
  grandTotal
    [PageLoaded [lit "10"; lit "20"] []; PageFailed;
     PageLoaded [] [lit "Cost: (300)"; lit "Net -45"]]
  = Num.ofZ 285
  /\ Num.integerValue
       (grandTotal
          [PageLoaded [lit "10"; lit "20"] []; PageFailed;
           PageLoaded [] [lit "Cost: (300)"; lit "Net -45"]])
     = Some 285%Z.
Proof.
  apply (grandTotal_integers_exact
           [PageLoaded [lit "10"; lit "20"] []; PageFailed;
            PageLoaded [] [lit "Cost: (300)"; lit "Net -45"]]).
  - intros p t Hp Ht. simpl in Hp.
    repeat (destruct Hp as [<-|Hp];
            [vm_compute in Ht;
             repeat (destruct Ht as [<-|Ht]; [vm_compute; auto|]);
             destruct Ht|]).
    destruct Hp.
  - intros p Hp. simpl in Hp.
    repeat (destruct Hp as [<-|Hp]; [vm_compute; reflexivity|]). destruct Hp.
  - vm_compute. reflexivity.
Defined.

(** ** The string that is parsed *)

Lemma existsb_countAll cls s :
  existsb cls s = true -> 0 < Str.countAll cls s.
Proof.
  unfold Str.countAll. induction s as [|c s IH]; simpl; [discriminate|].
  destruct (cls c); simpl; [lia | exact IH].
Qed.

Lemma filter_separators (f : codeUnit -> bool) w :
  (forall c, f c = true -> Char.isDot c = false) ->
  (forall c, f c = true -> Char.isComma c = false) ->
  filter f (separators w) = filter f w.
Proof.
  intros Hdot Hcomma. rewrite separators_dropInnerDots.
  assert (Hdel : filter f (Str.deleteAll Char.isComma w) = filter f w).
  { unfold Str.deleteAll. apply filter_filter_keep.
    intros c Hc. rewrite (Hcomma c Hc). reflexivity. }
  destruct (Str.countAll Char.isDot w <=? 1); [exact Hdel|].
  rewrite filter_dropInnerDots by exact Hdot. exact Hdel.
Qed.

(** X15: what [Number] is called on, for any input: only digits, dots and
    minus signs; all the digits of the input and all its minus signs, in
    their order; and one dot when the input holds a dot, none otherwise. *)
Theorem cleaned_string (s : jsstring) :
  (forall c, In c (separators (working s)) -> isPayload c = true)
  /\ filter (fun c => Char.isDigit c || Char.isMinus c) (separators (working s))
     = filter (fun c => Char.isDigit c || Char.isMinus c) s
  /\ Str.countAll Char.isDot (separators (working s))
     = Nat.min 1 (Str.countAll Char.isDot s).
Proof.
  split; [|split].
  - intros c Hc. rewrite separators_working in Hc.
    apply In_separators, filter_In in Hc. tauto.
  - rewrite filter_separators, working_filter.
    + apply filter_filter_keep. intros c Hc. unfold isKept, isPayload.
      destruct (Char.isDigit c), (Char.isMinus c); try discriminate;
        rewrite ?orb_true_r; reflexivity.
    + intros c Hc. revert Hc. clear. char_solve.
    + intros c Hc. revert Hc. clear. char_solve.
  - rewrite <- (countAll_dot_working s). rewrite separators_dropInnerDots.
    destruct (Str.countAll Char.isDot (working s) <=? 1) eqn:Hle.
    + rewrite (countAll_deleteAll Char.isDot Char.isComma dot_not_comma).
      apply Nat.leb_le in Hle. lia.
    + apply Nat.leb_gt in Hle.
      pose proof (countAll_dot_dropInnerDots
                    (Str.deleteAll Char.isComma (working s))) as Hmax.
      assert (Hex : existsb Char.isDot
                      (dropInnerDots (Str.deleteAll Char.isComma (working s)))
                    = true).
      { rewrite existsb_dropInnerDots. apply countAll_existsb.
        rewrite (countAll_deleteAll Char.isDot Char.isComma dot_not_comma).
        lia. }
      apply existsb_countAll in Hex. lia.
Qed.

(** X16: the parenthesis test of [parseNumberFromString], exactly: it holds
    when, and only when, the stripped string is, between white space, an
    opening parenthesis, a text without line terminator and a closing
    parenthesis. *)
Theorem paren_test_exact (s : jsstring) :
  testAnchored parenRe (stripped s) = true <->
  exists mid,
    Str.trim (stripped s) = 40%N :: mid ++ [41%N]
    /\ (forall c, In c mid -> Char.isLineTerminator c = false).
Proof. apply parenRe_spec. Qed.

Lemma cleaned_string_witness :
  isPayload 46%N = true
  /\ Str.countAll Char.isDot (separators (working (lit "$ 1.2,34.567.89")))
     = 1.
Proof.
  destruct (cleaned_string (lit "$ 1.2,34.567.89")) as (Hpayload & _ & Hdots).
  split.
  - apply Hpayload. vm_compute. auto 20.
  - rewrite Hdots. vm_compute. reflexivity.
Defined.

Lemma paren_test_exact_witness :
  testAnchored parenRe (stripped (lit " USD (-1,234.5) ")) = true.
Proof.
  apply (proj2 (paren_test_exact (lit " USD (-1,234.5) "))).
  exists (lit "-1,234.5"). split; [vm_compute; reflexivity|].
  intros c Hc. simpl in Hc.
  repeat (destruct Hc as [<-|Hc]; [reflexivity|]). destruct Hc.
Defined.
